(** * Grocery list manager: state management and derived views

    A shallow embedding of [src/Grocery.js] (the [ModernGroceryList]
    component): the item store ([addItem], [toggleComplete], [deleteItem],
    [updateQuantity], [clearCompleted]), the form handlers that feed it,
    the view projection ([filteredItems], [groupedItems], the completion
    percentage) and the two persistence effects.

    JavaScript strings are sequences of UTF-16 code units, the completion
    percentage is a binary64 float, and every React state cell is a field
    of one [State] record that each handler maps to the next state.

    Numbers that hold quantities and clock readings are integers ([Z]).
    The page computes with binary64 numbers, on which [quantity - 1],
    [quantity + 1] and [parseInt] give the exact integer as long as it lies
    between -2^53 and 2^53 and round it beyond; a statement that depends
    on the exact value of such a result carries that bound. *)

From Stdlib Require Import ZArith NArith Lia Floats Uint63.
From Stdlib Require Ascii String DecimalString DecimalPos DecimalZ.
From stdpp Require Import base decidable option list.
Import String.StringSyntax.
Delimit Scope string_scope with string.

Local Open Scope Z_scope.

(** ** JavaScript strings and the built-ins the component calls *)

Module JsString.

(** A string value: its UTF-16 code units. *)
Definition t := list N.

(** A literal whose characters are all ASCII. *)
Definition js (s : String.string) : t :=
  map Ascii.N_of_ascii (String.list_ascii_of_string s).
#[global] Arguments js s%_string.

(** [WhiteSpace] and [LineTerminator] code points of ECMAScript, the ones
    [String.prototype.trim] and [parseInt] strip: TAB, LF, VT, FF, CR,
    SP, NBSP, U+1680, U+2000..U+200A, LS, PS, U+202F, U+205F, U+3000 and
    the byte order mark. *)
Definition isWhiteSpace (c : N) : bool :=
  ((9 <=? c) && (c <=? 13) || (c =? 32) || (c =? 160) || (c =? 5760)
   || (8192 <=? c) && (c <=? 8202) || (c =? 8232) || (c =? 8233)
   || (c =? 8239) || (c =? 8287) || (c =? 12288) || (c =? 65279))%N.

Fixpoint trimStart (s : t) : t :=
  match s with
  | c :: s' => if isWhiteSpace c then trimStart s' else s
  | [] => []
  end.

Definition trimEnd (s : t) : t := reverse (trimStart (reverse s)).

(** [s.trim()] *)
Definition trim (s : t) : t := trimEnd (trimStart s).

(** ToBoolean on a string: only the empty string is falsy. *)
Definition truthy (s : t) : bool :=
  match s with [] => false | _ :: _ => true end.

(** [a === b] on strings. *)
Definition eqb (a b : t) : bool := bool_decide (a = b).

Fixpoint startsWith (s p : t) {struct p} : bool :=
  match p, s with
  | [], _ => true
  | _ :: _, [] => false
  | c :: p', d :: s' => (c =? d)%N && startsWith s' p'
  end.

(** [s.includes(p)]: [p] occurs at some position of [s]. *)
Fixpoint includes (s p : t) : bool :=
  startsWith s p ||
  match s with
  | [] => false
  | _ :: s' => includes s' p
  end.

(** [toLowerCase] on the ASCII range, where the Unicode default case
    conversion maps A..Z to a..z and fixes every other code point. *)
Definition lowerAscii (c : N) : N :=
  if ((65 <=? c) && (c <=? 90))%N then (c + 32)%N else c.

Definition isAscii (s : t) : Prop := Forall (λ c, (c < 128)%N) s.

(** The letters of the Greek alphabet without diacritics: the capitals
    U+0391..U+03A9 (U+03A2 is not assigned) and the small letters
    U+03B1..U+03C9, final sigma U+03C2 among them. *)
Definition isGreekLetter (c : N) : bool :=
  ((913 <=? c) && (c <=? 937) && negb (c =? 930)
   || (945 <=? c) && (c <=? 969))%N.

Definition isGreek (s : t) : Prop := Forall (λ c, isGreekLetter c = true) s.

(** [toLowerCase] on a string of such letters.  A capital becomes the
    small letter 32 code points up, except that capital sigma (U+03A3)
    becomes final sigma (U+03C2) instead of sigma (U+03C3) under the
    [Final_Sigma] condition of Unicode's SpecialCasing: a cased letter
    comes before it and none comes after it, case-ignorable characters
    skipped.  Every letter of this range is cased and none is
    case-ignorable, so here the condition reads: the sigma is the last
    letter of the string and not the first.  [first] tells whether no
    letter has been read yet. *)
Fixpoint lowerGreekFrom (first : bool) (s : t) : t :=
  match s with
  | [] => []
  | c :: s' =>
      (if (c =? 931)%N
       then (if negb first && negb (truthy s') then 962 else 963)%N
       else if ((913 <=? c) && (c <=? 937))%N then (c + 32)%N
       else c)
      :: lowerGreekFrom false s'
  end.

Definition lowerGreek (s : t) : t := lowerGreekFrom true s.

(** Value of a digit of [parseInt] in any radix up to 36. *)
Definition digitValue (c : N) : option Z :=
  if ((48 <=? c) && (c <=? 57))%N then Some (Z.of_N c - 48)
  else if ((97 <=? c) && (c <=? 122))%N then Some (Z.of_N c - 87)
  else if ((65 <=? c) && (c <=? 90))%N then Some (Z.of_N c - 55)
  else None.

(** The longest prefix of radix-[radix] digits, as a number; [acc] is
    [None] until a first digit has been read. *)
Fixpoint parseDigits (radix : Z) (acc : option Z) (s : t) : option Z :=
  match s with
  | [] => acc
  | c :: s' =>
      match digitValue c with
      | Some d =>
          if d <? radix
          then parseDigits radix (Some (default 0 acc * radix + d)) s'
          else acc
      | None => acc
      end
  end.

(** [parseInt(s)] with no radix argument; [None] is NaN.  Leading white
    space is skipped, then an optional sign, then an optional [0x]/[0X]
    (which selects radix 16), then the longest run of digits.  The result
    is the integer the digits denote.  The host returns the binary64
    nearest to it, which is that integer when its magnitude is at most
    2^53 and has its sign otherwise (an infinity from 2^1024 on). *)
Definition parseInt (s : t) : option Z :=
  let s1 := trimStart s in
  let '(sign, s2) :=
    match s1 with
    | 45%N :: r => (-1, r)
    | 43%N :: r => (1, r)
    | _ => (1, s1)
    end in
  let '(radix, s3) :=
    match s2 with
    | 48%N :: 120%N :: r => (16, r)
    | 48%N :: 88%N :: r => (16, r)
    | _ => (10, s2)
    end in
  Z.mul sign <$> parseDigits radix None s3.

(** [n.toString()] for an integer-valued number below 10^21: the decimal
    digits, with a leading minus sign when negative. *)
Definition ofInteger (n : Z) : t :=
  js (DecimalString.NilZero.string_of_int (Z.to_int n)).

End JsString.

Abbreviation jsstring := JsString.t.
Abbreviation js := JsString.js.

(** ** Data model *)

(** [priority: 'low' | 'medium' | 'high'] *)
Inductive Priority := low | medium | high.

(** [viewMode: 'category' | 'priority' | 'all'] *)
Inductive ViewMode := view_category | view_priority | view_all.

(** A [Date] object is its time value: milliseconds since the epoch, or
    NaN ([None]) for an invalid date. *)
Module Date.
Definition t := option Z.
End Date.

(** [interface Category] (lines 16-21). *)
Module Category.
Record t := mk {
  id : jsstring;
  name : jsstring;
  icon : jsstring;
  color : jsstring
}.
End Category.

(** [interface GroceryItem] (lines 4-14).  [quantity] holds an integer;
    [estimatedPrice] is optional and [None] when absent. *)
Module GroceryItem.
Record t := mk {
  id : jsstring;
  name : jsstring;
  category : jsstring;
  quantity : Z;
  unit : jsstring;
  completed : bool;
  priority : Priority;
  estimatedPrice : option Z;
  addedAt : Date.t
}.

(** [{ ...item, completed: b }] *)
Definition with_completed (b : bool) (item : t) : t :=
  mk (id item) (name item) (category item) (quantity item) (unit item)
     b (priority item) (estimatedPrice item) (addedAt item).

(** [{ ...item, quantity: n }] *)
Definition with_quantity (n : Z) (item : t) : t :=
  mk (id item) (name item) (category item) n (unit item)
     (completed item) (priority item) (estimatedPrice item) (addedAt item).

End GroceryItem.

(** The [categories] table (lines 23-32), in source order; an icon is
    one astral character, so two code units. *)
Definition categories : list Category.t :=
  [ Category.mk (js "produce") (js "Fresh Produce") [55358; 56684]%N
      (js "from-green-400 to-green-600");
    Category.mk (js "dairy") (js "Dairy & Eggs") [55358; 56667]%N
      (js "from-blue-400 to-blue-600");
    Category.mk (js "meat") (js "Meat & Seafood") [55358; 56681]%N
      (js "from-red-400 to-red-600");
    Category.mk (js "bakery") (js "Bakery") [55356; 57182]%N
      (js "from-orange-400 to-orange-600");
    Category.mk (js "pantry") (js "Pantry") [55358; 56683]%N
      (js "from-purple-400 to-purple-600");
    Category.mk (js "frozen") (js "Frozen") [55358; 56778]%N
      (js "from-cyan-400 to-cyan-600");
    Category.mk (js "household") (js "Household") [55358; 56829]%N
      (js "from-gray-400 to-gray-600");
    Category.mk (js "other") (js "Other") [55357; 56550]%N
      (js "from-indigo-400 to-indigo-600") ].

(** The [value]s of the unit [<select>]'s options (lines 345-352). *)
Definition unitOptions : list jsstring :=
  [js "pc"; js "kg"; js "g"; js "l"; js "ml"; js "pack"; js "bottle"; js "can"].

(** ** Component state: one field per [useState] cell (lines 41-51) *)

Module State.
Record t := mk {
  items : list GroceryItem.t;
  newItem : jsstring;
  selectedCategory : jsstring;
  selectedPriority : Priority;
  quantity : Z;
  unit : jsstring;
  searchTerm : jsstring;
  filterCategory : jsstring;
  viewMode : ViewMode;
  isDark : bool;
  showAddForm : bool
}.

(** The initial values passed to [useState]. *)
Definition initial : t :=
  mk [] [] (js "produce") medium 1 (js "pc") [] (js "all")
     view_category false false.

Definition setItems (f : list GroceryItem.t → list GroceryItem.t) (st : t) : t :=
  mk (f (items st)) (newItem st) (selectedCategory st) (selectedPriority st)
     (quantity st) (unit st) (searchTerm st) (filterCategory st)
     (viewMode st) (isDark st) (showAddForm st).
Definition setNewItem (v : jsstring) (st : t) : t :=
  mk (items st) v (selectedCategory st) (selectedPriority st)
     (quantity st) (unit st) (searchTerm st) (filterCategory st)
     (viewMode st) (isDark st) (showAddForm st).
Definition setSelectedCategory (v : jsstring) (st : t) : t :=
  mk (items st) (newItem st) v (selectedPriority st)
     (quantity st) (unit st) (searchTerm st) (filterCategory st)
     (viewMode st) (isDark st) (showAddForm st).
Definition setSelectedPriority (v : Priority) (st : t) : t :=
  mk (items st) (newItem st) (selectedCategory st) v
     (quantity st) (unit st) (searchTerm st) (filterCategory st)
     (viewMode st) (isDark st) (showAddForm st).
Definition setQuantity (v : Z) (st : t) : t :=
  mk (items st) (newItem st) (selectedCategory st) (selectedPriority st)
     v (unit st) (searchTerm st) (filterCategory st)
     (viewMode st) (isDark st) (showAddForm st).
Definition setUnit (v : jsstring) (st : t) : t :=
  mk (items st) (newItem st) (selectedCategory st) (selectedPriority st)
     (quantity st) v (searchTerm st) (filterCategory st)
     (viewMode st) (isDark st) (showAddForm st).
Definition setSearchTerm (v : jsstring) (st : t) : t :=
  mk (items st) (newItem st) (selectedCategory st) (selectedPriority st)
     (quantity st) (unit st) v (filterCategory st)
     (viewMode st) (isDark st) (showAddForm st).
Definition setFilterCategory (v : jsstring) (st : t) : t :=
  mk (items st) (newItem st) (selectedCategory st) (selectedPriority st)
     (quantity st) (unit st) (searchTerm st) v
     (viewMode st) (isDark st) (showAddForm st).
Definition setViewMode (v : ViewMode) (st : t) : t :=
  mk (items st) (newItem st) (selectedCategory st) (selectedPriority st)
     (quantity st) (unit st) (searchTerm st) (filterCategory st)
     v (isDark st) (showAddForm st).
Definition setIsDark (v : bool) (st : t) : t :=
  mk (items st) (newItem st) (selectedCategory st) (selectedPriority st)
     (quantity st) (unit st) (searchTerm st) (filterCategory st)
     (viewMode st) v (showAddForm st).
Definition setShowAddForm (v : bool) (st : t) : t :=
  mk (items st) (newItem st) (selectedCategory st) (selectedPriority st)
     (quantity st) (unit st) (searchTerm st) (filterCategory st)
     (viewMode st) (isDark st) v.
End State.

(** ** Item store *)

(** [addItem] (lines 81-99): [idClock] is what [Date.now()] returns for
    the id, [dateClock] the time value of the [new Date()] stored in
    [addedAt]. *)
Definition addItem (idClock dateClock : Z) (st : State.t) : State.t :=
  if negb (JsString.truthy (JsString.trim (State.newItem st))) then st
  else
    let item :=
      GroceryItem.mk
        (JsString.ofInteger idClock)
        (JsString.trim (State.newItem st))
        (State.selectedCategory st)
        (State.quantity st)
        (State.unit st)
        false
        (State.selectedPriority st)
        None
        (Some dateClock) in
    State.setShowAddForm false
      (State.setQuantity 1
         (State.setNewItem []
            (State.setItems (λ prev, prev ++ [item]) st))).

(** [addItem] as the handler of one render, run in a later state.  The
    function a render creates reads [newItem], [selectedCategory],
    [quantity], [unit] and [selectedPriority] of that render ([closure]);
    [setItems] receives an updater, which React applies to the items
    current when the handler runs ([st]), and the other three setters
    store constants.  An element keeps its handlers while it is not
    rendered again: the add form sits in an [AnimatePresence] with an
    [exit] animation (lines 284-289), so after [setShowAddForm(false)] it
    stays on the page, with the Add button and the name field of the last
    render that showed it, until the animation ends.  [addItem] above is
    the case [closure = st]. *)
Definition addItemFrom (closure : State.t) (idClock dateClock : Z)
    (st : State.t) : State.t :=
  if negb (JsString.truthy (JsString.trim (State.newItem closure))) then st
  else
    let item :=
      GroceryItem.mk
        (JsString.ofInteger idClock)
        (JsString.trim (State.newItem closure))
        (State.selectedCategory closure)
        (State.quantity closure)
        (State.unit closure)
        false
        (State.selectedPriority closure)
        None
        (Some dateClock) in
    State.setShowAddForm false
      (State.setQuantity 1
         (State.setNewItem []
            (State.setItems (λ prev, prev ++ [item]) st))).

(** [toggleComplete] (lines 101-105). *)
Definition toggleComplete (id : jsstring) (st : State.t) : State.t :=
  State.setItems
    (λ prev,
       map (λ item,
              if JsString.eqb (GroceryItem.id item) id
              then GroceryItem.with_completed (negb (GroceryItem.completed item)) item
              else item) prev)
    st.

(** [deleteItem] (lines 107-109). *)
Definition deleteItem (id : jsstring) (st : State.t) : State.t :=
  State.setItems
    (λ prev, List.filter (λ item, negb (JsString.eqb (GroceryItem.id item) id)) prev)
    st.

(** [updateQuantity] (lines 111-116). *)
Definition updateQuantity (id : jsstring) (newQuantity : Z) (st : State.t) : State.t :=
  if newQuantity <? 1 then st
  else
    State.setItems
      (λ prev,
         map (λ item,
                if JsString.eqb (GroceryItem.id item) id
                then GroceryItem.with_quantity newQuantity item
                else item) prev)
      st.

(** [clearCompleted] (lines 118-120). *)
Definition clearCompleted (st : State.t) : State.t :=
  State.setItems
    (λ prev, List.filter (λ item, negb (GroceryItem.completed item)) prev)
    st.

(** The quantity input's [onChange] (line 329):
    [setQuantity(parseInt(e.target.value) || 1)]; NaN and 0 are falsy. *)
Definition onQuantityChange (value : jsstring) (st : State.t) : State.t :=
  State.setQuantity
    (match JsString.parseInt value with
     | Some n => if n =? 0 then 1 else n
     | None => 1
     end)
    st.

(** The decrement and increment buttons of a rendered item (lines 473
    and 488).  The difference and the sum are those of the integers; the
    page's binary64 [-] and [+] give the same as long as the result lies
    between -2^53 and 2^53, and round it beyond. *)
Definition onDecrement (item : GroceryItem.t) (st : State.t) : State.t :=
  updateQuantity (GroceryItem.id item) (GroceryItem.quantity item - 1) st.
Definition onIncrement (item : GroceryItem.t) (st : State.t) : State.t :=
  updateQuantity (GroceryItem.id item) (GroceryItem.quantity item + 1) st.

(** ** View projection *)

(** An object used as a dictionary: its own properties in enumeration
    order.  Every key written below is a category id or ["all"], none of
    which is an array index, so enumeration order is insertion order. *)
Definition JsObject (V : Type) := list (jsstring * V).

(** [obj[k] = v]: overwrite in place, or append a new property. *)
Fixpoint obj_set {V} (k : jsstring) (v : V) (obj : JsObject V) : JsObject V :=
  match obj with
  | [] => [(k, v)]
  | (k', v') :: obj' =>
      if JsString.eqb k' k then (k', v) :: obj'
      else (k', v') :: obj_set k v obj'
  end.

(** A group of the projected view: [{ category, items }], [category] being
    [null] for the unlabelled group. *)
Definition Group : Type := option Category.t * list GroceryItem.t.

(** [array.length] as a number (an array holds fewer than 2^32
    elements, each length exactly representable). *)
Definition number_of_length (n : nat) : float :=
  PrimFloat.of_uint63 (Uint63.of_Z (Z.of_nat n)).

Section View.
(** [String.prototype.toLowerCase]: Unicode default case conversion, a
    table of the host with context-sensitive entries.  The view is
    parametric in it; [host_toLowerCase] below states the values the
    development relies on. *)
Variable toLowerCase : jsstring → jsstring.

(** [filteredItems] (lines 122-126). *)
Definition filteredItems (st : State.t) : list GroceryItem.t :=
  List.filter
    (λ item,
       let matchesSearch :=
         JsString.includes (toLowerCase (GroceryItem.name item))
                           (toLowerCase (State.searchTerm st)) in
       let matchesCategory :=
         JsString.eqb (State.filterCategory st) (js "all")
         || JsString.eqb (GroceryItem.category item) (State.filterCategory st) in
       matchesSearch && matchesCategory)
    (State.items st).

(** [groupedItems] (lines 128-136), as [Object.entries] lists it. *)
Definition groupedItems (st : State.t) : JsObject Group :=
  match State.viewMode st with
  | view_category =>
      fold_left
        (λ acc category,
           let categoryItems :=
             List.filter
               (λ item, JsString.eqb (GroceryItem.category item) (Category.id category))
               (filteredItems st) in
           if (0 <? length categoryItems)%nat
           then obj_set (Category.id category) (Some category, categoryItems) acc
           else acc)
        categories []
  | _ => [(js "all", (None, filteredItems st))]
  end.
End View.

(** [completedCount], [totalCount] and [completionPercentage] (lines
    138-140). *)
Definition completedCount (st : State.t) : nat :=
  length (List.filter (λ item, GroceryItem.completed item) (State.items st)).

Definition totalCount (st : State.t) : nat := length (State.items st).

Definition completionPercentage (st : State.t) : float :=
  if (0 <? totalCount st)%nat
  then (number_of_length (completedCount st) / number_of_length (totalCount st) * 100)%float
  else 0%float.

(** ** Time values and the date-time string format

    The abstract operations of ECMAScript's Date objects that
    [Date.prototype.toISOString] and [Date.parse] are specified with. *)

Module DateTime.

Definition msPerDay : Z := 86400000.
Definition maxTime : Z := 8640000000000000.

(** A time value a [Date] can hold. *)
Definition valid (d : Date.t) : Prop :=
  match d with
  | Some tv => - maxTime <= tv <= maxTime
  | None => False
  end.

Definition TimeClip (tv : Z) : Date.t :=
  if (Z.abs tv <=? maxTime) then Some tv else None.

Definition Day (tv : Z) : Z := tv / msPerDay.
Definition TimeWithinDay (tv : Z) : Z := tv mod msPerDay.

Definition DayFromYear (y : Z) : Z :=
  365 * (y - 1970) + (y - 1969) / 4 - (y - 1901) / 100 + (y - 1601) / 400.

Definition InLeapYear (y : Z) : Z :=
  if (y mod 4 =? 0) && (negb (y mod 100 =? 0) || (y mod 400 =? 0)) then 1 else 0.

(** The year of the day [d]: the largest [y] with [DayFromYear y <= d],
    found next to the estimate a mean year length gives. *)
Definition YearFromDay (d : Z) : Z :=
  let e := 1970 + d * 400 / 146097 in
  if DayFromYear (e + 1) <=? d then e + 1
  else if DayFromYear e <=? d then e
  else e - 1.

Definition YearFromTime (tv : Z) : Z := YearFromDay (Day tv).

(** First day (within the year) of month [m], [0 <= m <= 12]; [leap] is
    [InLeapYear]. *)
Definition monthStart (leap m : Z) : Z :=
  if m <=? 0 then 0
  else if m =? 1 then 31
  else if m =? 2 then 59 + leap
  else if m =? 3 then 90 + leap
  else if m =? 4 then 120 + leap
  else if m =? 5 then 151 + leap
  else if m =? 6 then 181 + leap
  else if m =? 7 then 212 + leap
  else if m =? 8 then 243 + leap
  else if m =? 9 then 273 + leap
  else if m =? 10 then 304 + leap
  else if m =? 11 then 334 + leap
  else 365 + leap.

Definition DayWithinYear (tv : Z) : Z := Day tv - DayFromYear (YearFromTime tv).

Definition MonthFromTime (tv : Z) : Z :=
  let d := DayWithinYear tv in
  let leap := InLeapYear (YearFromTime tv) in
  if d <? monthStart leap 1 then 0
  else if d <? monthStart leap 2 then 1
  else if d <? monthStart leap 3 then 2
  else if d <? monthStart leap 4 then 3
  else if d <? monthStart leap 5 then 4
  else if d <? monthStart leap 6 then 5
  else if d <? monthStart leap 7 then 6
  else if d <? monthStart leap 8 then 7
  else if d <? monthStart leap 9 then 8
  else if d <? monthStart leap 10 then 9
  else if d <? monthStart leap 11 then 10
  else 11.

Definition DateFromTime (tv : Z) : Z :=
  DayWithinYear tv
  - monthStart (InLeapYear (YearFromTime tv)) (MonthFromTime tv) + 1.

Definition HourFromTime (tv : Z) : Z := (tv / 3600000) mod 24.
Definition MinFromTime (tv : Z) : Z := (tv / 60000) mod 60.
Definition SecFromTime (tv : Z) : Z := (tv / 1000) mod 60.
Definition msFromTime (tv : Z) : Z := tv mod 1000.

Definition MakeTime (hour min sec ms : Z) : Z :=
  hour * 3600000 + min * 60000 + sec * 1000 + ms.

Definition MakeDay (year month date : Z) : Z :=
  let ym := year + month / 12 in
  let mn := month mod 12 in
  DayFromYear ym + monthStart (InLeapYear ym) mn + date - 1.

Definition MakeDate (day time : Z) : Z := day * msPerDay + time.

Definition DaysInMonth (year month : Z) : Z :=
  monthStart (InLeapYear year) (month + 1) - monthStart (InLeapYear year) month.

(** [w] decimal digits of [n], most significant first. *)
Fixpoint digits (w : nat) (n : Z) : jsstring :=
  match w with
  | O => []
  | S w' => digits w' (n / 10) ++ [Z.to_N (48 + n mod 10)]
  end.

(** [Date.prototype.toISOString] on a finite time value:
    [YYYY-MM-DDTHH:mm:ss.sssZ], the year widened to a sign and six
    digits outside 0..9999. *)
Definition toISOString (tv : Z) : jsstring :=
  let y := YearFromTime tv in
  (if (0 <=? y) && (y <=? 9999) then digits 4 y
   else (if 0 <=? y then js "+" else js "-") ++ digits 6 (Z.abs y))
  ++ js "-" ++ digits 2 (MonthFromTime tv + 1)
  ++ js "-" ++ digits 2 (DateFromTime tv)
  ++ js "T" ++ digits 2 (HourFromTime tv)
  ++ js ":" ++ digits 2 (MinFromTime tv)
  ++ js ":" ++ digits 2 (SecFromTime tv)
  ++ js "." ++ digits 3 (msFromTime tv)
  ++ js "Z".

(** Read exactly [w] decimal digits. *)
Fixpoint readDigits (w : nat) (acc : Z) (s : jsstring) : option (Z * jsstring) :=
  match w with
  | O => Some (acc, s)
  | S w' =>
      match s with
      | c :: s' =>
          if ((48 <=? c) && (c <=? 57))%N
          then readDigits w' (acc * 10 + (Z.of_N c - 48)) s'
          else None
      | [] => None
      end
  end.

Definition expect (c : N) (s : jsstring) : option jsstring :=
  match s with
  | d :: s' => if (d =? c)%N then Some s' else None
  | [] => None
  end.

(** A four-digit year, or a sign and six digits ([-000000] excluded). *)
Definition readYear (s : jsstring) : option (Z * jsstring) :=
  match s with
  | c :: r =>
      if (c =? 43)%N then readDigits 6 0 r
      else if (c =? 45)%N then
        '(y, r') ← readDigits 6 0 r;
        if y =? 0 then None else Some (- y, r')
      else readDigits 4 0 s
  | [] => None
  end.

(** The complete UTC form of the date-time string format, every element
    within its legal range; [None] when [s] is not of that form. *)
Definition parseISO (s : jsstring) : option Z :=
  '(y, s) ← readYear s;
  s ← expect 45 s;
  '(mo, s) ← readDigits 2 0 s;
  s ← expect 45 s;
  '(d, s) ← readDigits 2 0 s;
  s ← expect 84 s;
  '(h, s) ← readDigits 2 0 s;
  s ← expect 58 s;
  '(mi, s) ← readDigits 2 0 s;
  s ← expect 58 s;
  '(sec, s) ← readDigits 2 0 s;
  s ← expect 46 s;
  '(ms, s) ← readDigits 3 0 s;
  s ← expect 90 s;
  if bool_decide (s = [])
     && (1 <=? mo) && (mo <=? 12)
     && (1 <=? d) && (d <=? DaysInMonth y (mo - 1))
     && (h <=? 23) && (mi <=? 59) && (sec <=? 59)
  then Some (MakeDate (MakeDay y (mo - 1) d) (MakeTime h mi sec ms))
  else None.

Section Parse.
(** What the host's [Date.parse] returns for a string that is not in
    the complete UTC form (shorter forms, local times, offsets and the
    implementation-defined fallback formats); [None] is NaN. *)
Variable hostDateParse : jsstring → option Z.

Definition parse (s : jsstring) : option Z :=
  match parseISO s with
  | Some tv => Some tv
  | None => hostDateParse s
  end.
End Parse.

End DateTime.

(** ** Persistence *)

#[local] Set Warnings "-register-all".

(** A value of the JSON data model: what [JSON.parse] returns and what
    [JSON.stringify] writes.  An object lists its properties in order, each
    key once; a number is an integer, as the quantities are. *)
Inductive json :=
| JNull
| JBool (b : bool)
| JNum (n : Z)
| JStr (s : jsstring)
| JArr (elems : list json)
| JObj (props : list (jsstring * json)).

(** The content of a [localStorage] entry, by what [JSON.parse] makes of
    it: the empty string, a text that is not JSON ([JSON.parse] throws
    SyntaxError), or the JSON text of a value. *)
Inductive StoredText :=
| EmptyText
| NotJson
| JsonText (v : json).

Module Storage.
(** The two keys the component uses; [None] is an absent key. *)
Record t := mk {
  modernGroceryList : option StoredText;
  groceryListTheme : option jsstring
}.
End Storage.

(** How an effect ends. [IllTyped]: it ran to the end and left in [items]
    a value that is not a [GroceryItem[]]. *)
Inductive Outcome (A : Type) :=
| Ok (a : A)
| Throws
| IllTyped.
Arguments Ok {A} a.
Arguments Throws {A}.
Arguments IllTyped {A}.

Definition priority_to_string (p : Priority) : jsstring :=
  match p with
  | low => js "low"
  | medium => js "medium"
  | high => js "high"
  end.

Definition priority_of_string (s : jsstring) : option Priority :=
  if JsString.eqb s (js "low") then Some low
  else if JsString.eqb s (js "medium") then Some medium
  else if JsString.eqb s (js "high") then Some high
  else None.

(** [obj[k]]; [None] is [undefined]. *)
Fixpoint obj_get {V} (k : jsstring) (obj : list (jsstring * V)) : option V :=
  match obj with
  | [] => None
  | (k', v) :: obj' => if JsString.eqb k' k then Some v else obj_get k obj'
  end.

(** [Date.prototype.toJSON]: the ISO string, or [null] for an invalid date. *)
Definition Date_toJSON (d : Date.t) : json :=
  match d with
  | Some tv => JStr (DateTime.toISOString tv)
  | None => JNull
  end.

(** [JSON.stringify] of one item: its properties in creation order;
    [estimatedPrice], when [undefined], is left out. *)
Definition item_to_json (item : GroceryItem.t) : json :=
  JObj
    ([ (js "id", JStr (GroceryItem.id item));
       (js "name", JStr (GroceryItem.name item));
       (js "category", JStr (GroceryItem.category item));
       (js "quantity", JNum (GroceryItem.quantity item));
       (js "unit", JStr (GroceryItem.unit item));
       (js "completed", JBool (GroceryItem.completed item));
       (js "priority", JStr (priority_to_string (GroceryItem.priority item))) ]
     ++ match GroceryItem.estimatedPrice item with
        | Some p => [(js "estimatedPrice", JNum p)]
        | None => []
        end
     ++ [ (js "addedAt", Date_toJSON (GroceryItem.addedAt item)) ]).

(** The save effect (lines 71-73):
    [localStorage.setItem('modernGroceryList', JSON.stringify(items))]. *)
Definition saveItems (st : State.t) (sto : Storage.t) : Storage.t :=
  Storage.mk (Some (JsonText (JArr (map item_to_json (State.items st)))))
             (Storage.groceryListTheme sto).

(** The theme effect's write (line 77). *)
Definition saveTheme (st : State.t) (sto : Storage.t) : Storage.t :=
  Storage.mk (Storage.modernGroceryList sto)
             (Some (if State.isDark st then js "dark" else js "light")).

(** ToString of a JSON value, as ToPrimitive applies it to a non-string
    argument of the [Date] constructor. *)
Fixpoint json_to_string (v : json) : jsstring :=
  match v with
  | JNull => js "null"
  | JBool true => js "true"
  | JBool false => js "false"
  | JNum n => JsString.ofInteger n
  | JStr s => s
  | JArr elems =>
      (fix join (l : list json) : jsstring :=
         match l with
         | [] => []
         | [e] => match e with JNull => [] | _ => json_to_string e end
         | e :: l' =>
             match e with JNull => [] | _ => json_to_string e end
             ++ js "," ++ join l'
         end) elems
  | JObj _ => js "[object Object]"
  end.

Section Load.
Variable hostDateParse : jsstring → option Z.

(** [new Date(v)] for [v] read from a parsed item; [None] as argument is
    [undefined]. *)
Definition new_Date (v : option json) : Date.t :=
  match v with
  | None => None
  | Some JNull => Some 0
  | Some (JBool b) => Some (if b then 1 else 0)
  | Some (JNum n) => DateTime.TimeClip n
  | Some (JStr s) => DateTime.parse hostDateParse s ≫= DateTime.TimeClip
  | Some (JArr elems) =>
      DateTime.parse hostDateParse (json_to_string (JArr elems)) ≫= DateTime.TimeClip
  | Some (JObj props) =>
      DateTime.parse hostDateParse (json_to_string (JObj props)) ≫= DateTime.TimeClip
  end.

(** [{ ...item, addedAt: new Date(item.addedAt) }] read as a
    [GroceryItem]; [None] when the other properties do not have the
    types of the interface. *)
Definition revive (props : list (jsstring * json)) : option GroceryItem.t :=
  match obj_get (js "id") props, obj_get (js "name") props,
        obj_get (js "category") props, obj_get (js "quantity") props,
        obj_get (js "unit") props, obj_get (js "completed") props,
        obj_get (js "priority") props with
  | Some (JStr id), Some (JStr name), Some (JStr category), Some (JNum quantity),
    Some (JStr unit), Some (JBool completed), Some (JStr prio) =>
      p ← priority_of_string prio;
      price ← match obj_get (js "estimatedPrice") props with
              | None => Some None
              | Some (JNum n) => Some (Some n)
              | Some _ => None
              end;
      Some (GroceryItem.mk id name category quantity unit completed p price
              (new_Date (obj_get (js "addedAt") props)))
  | _, _, _, _, _, _, _ => None
  end.

(** The callback of [.map] on one parsed element: reading [item.addedAt]
    of [null] throws. *)
Definition reviveItem (v : json) : Outcome GroceryItem.t :=
  match v with
  | JNull => Throws
  | JObj props =>
      match revive props with
      | Some item => Ok item
      | None => IllTyped
      end
  | _ => IllTyped
  end.

(** [.map] over the parsed array, left to right: a throw stops it. *)
Fixpoint reviveAll (l : list json) : Outcome (list GroceryItem.t) :=
  match l with
  | [] => Ok []
  | v :: l' =>
      match reviveItem v with
      | Throws => Throws
      | r =>
          match reviveAll l' with
          | Throws => Throws
          | Ok items =>
              match r with
              | Ok item => Ok (item :: items)
              | _ => IllTyped
              end
          | IllTyped => IllTyped
          end
      end
  end.

(** [JSON.parse(savedItems).map(...)]: only an array has [map]. *)
Definition parsedItems (text : StoredText) : Outcome (list GroceryItem.t) :=
  match text with
  | JsonText (JArr elems) => reviveAll elems
  | _ => Throws
  end.

(** The load effect (lines 54-68), run once on the state of the first
    render. *)
Definition loadEffect (sto : Storage.t) (st : State.t) : Outcome State.t :=
  let afterItems :=
    match Storage.modernGroceryList sto with
    | None => Ok st
    | Some EmptyText => Ok st
    | Some text =>
        match parsedItems text with
        | Ok items => Ok (State.setItems (λ _, items) st)
        | Throws => Throws
        | IllTyped => IllTyped
        end
    end in
  match afterItems with
  | Ok st' =>
      match Storage.groceryListTheme sto with
      | Some savedTheme =>
          if JsString.truthy savedTheme
          then Ok (State.setIsDark (JsString.eqb savedTheme (js "dark")) st')
          else Ok st'
      | None => Ok st'
      end
  | IllTyped =>
      (* the theme half still runs; the state stays outside the model *)
      IllTyped
  | Throws => Throws
  end.
End Load.

(** ** User events *)

(** What the page dispatches to the handlers of its current render.
    [Submit] is the Add button or the Enter key in the name field of a
    form rendered from the current state, with the two clock readings
    [addItem] takes; the [Click*] events on an item carry what the
    rendered item passes to its handler.  A submit through a form that is
    closing, and so still holds the handler of an earlier render, is not
    among these events: it is [SubmitClosing] of [Operation] below. *)
Inductive Event :=
| ChangeNewItem (value : jsstring)
| ChangeSelectedCategory (value : jsstring)
| ChangeSelectedPriority (value : Priority)
| ChangeQuantity (value : jsstring)
| ChangeUnit (value : jsstring)
| ChangeSearchTerm (value : jsstring)
| ChangeFilterCategory (value : jsstring)
| ClickViewMode (mode : ViewMode)
| ClickTheme
| ClickToggleForm
| ClickAddFirstItem
| Submit (idClock dateClock : Z)
| ClickComplete (id : jsstring)
| ClickDecrement (item : GroceryItem.t)
| ClickIncrement (item : GroceryItem.t)
| ClickDelete (id : jsstring)
| ClickClearCompleted.

Definition handle (e : Event) (st : State.t) : State.t :=
  match e with
  | ChangeNewItem v => State.setNewItem v st
  | ChangeSelectedCategory v => State.setSelectedCategory v st
  | ChangeSelectedPriority v => State.setSelectedPriority v st
  | ChangeQuantity v => onQuantityChange v st
  | ChangeUnit v => State.setUnit v st
  | ChangeSearchTerm v => State.setSearchTerm v st
  | ChangeFilterCategory v => State.setFilterCategory v st
  | ClickViewMode m => State.setViewMode m st
  | ClickTheme => State.setIsDark (negb (State.isDark st)) st
  | ClickToggleForm => State.setShowAddForm (negb (State.showAddForm st)) st
  | ClickAddFirstItem => State.setShowAddForm true st
  | Submit idClock dateClock => addItem idClock dateClock st
  | ClickComplete id => toggleComplete id st
  | ClickDecrement item => onDecrement item st
  | ClickIncrement item => onIncrement item st
  | ClickDelete id => deleteItem id st
  | ClickClearCompleted => clearCompleted st
  end.

(** The values the page can put in an event: a [<select>] reports one of
    its options, the view buttons are ['category'] and ['all'], an item's
    buttons belong to an item of the list, and a clock reading is a valid
    time value. *)
Definition offered (st : State.t) (e : Event) : Prop :=
  match e with
  | ChangeSelectedCategory v => v ∈ map Category.id categories
  | ChangeFilterCategory v => v ∈ js "all" :: map Category.id categories
  | ChangeUnit v => v ∈ unitOptions
  | ClickViewMode m => m = view_category ∨ m = view_all
  | Submit idClock dateClock =>
      DateTime.valid (Some idClock) ∧ DateTime.valid (Some dateClock)
  | ClickComplete id | ClickDelete id => id ∈ map GroceryItem.id (State.items st)
  | ClickDecrement item | ClickIncrement item => item ∈ State.items st
  | _ => True
  end.

(** The states the page reaches from its first render. *)
Inductive reachable : State.t → Prop :=
| reachable_initial : reachable State.initial
| reachable_step st e :
    reachable st → offered st e → reachable (handle e st).

(** Left-to-right run of a sequence of events. *)
Definition run (events : list Event) (st : State.t) : State.t :=
  fold_left (λ s e, handle e s) events st.

(** Every event of a run is one the page offers in the state it meets. *)
Fixpoint offered_along (events : list Event) (st : State.t) : Prop :=
  match events with
  | [] => True
  | e :: events' => offered st e ∧ offered_along events' (handle e st)
  end.

(** A quantity entry whose text does not parse to a negative number. *)
Definition quantity_entry_nonnegative (e : Event) : Prop :=
  match e with
  | ChangeQuantity value => ∀ n, JsString.parseInt value = Some n → 0 <= n
  | _ => True
  end.

(** The [Date.now()] readings of the [Submit] events in a run that
    created an item, given the state the run starts in. *)
Fixpoint idClocks (events : list Event) (st : State.t) : list Z :=
  match events with
  | [] => []
  | e :: events' =>
      match e with
      | Submit idClock _ =>
          if JsString.truthy (JsString.trim (State.newItem st))
          then [idClock] else []
      | _ => []
      end ++ idClocks events' (handle e st)
  end.

(** An operation on the page: an event handled by the current render, or
    a submit through the closing add form, whose handler is the [addItem]
    of the earlier render [closure]. *)
Inductive Operation :=
| Dispatch (e : Event)
| SubmitClosing (closure : State.t) (idClock dateClock : Z).

Definition perform (op : Operation) (st : State.t) : State.t :=
  match op with
  | Dispatch e => handle e st
  | SubmitClosing closure idClock dateClock =>
      addItemFrom closure idClock dateClock st
  end.

(** Left-to-right run of a sequence of operations. *)
Definition perform_all (ops : list Operation) (st : State.t) : State.t :=
  fold_left (λ s op, perform op s) ops st.

(** The [Date.now()] reading an operation turns into the id of a new
    item, when it creates one. *)
Definition idClock_of (op : Operation) (st : State.t) : option Z :=
  match op with
  | Dispatch (Submit idClock _) =>
      if JsString.truthy (JsString.trim (State.newItem st))
      then Some idClock else None
  | Dispatch _ => None
  | SubmitClosing closure idClock _ =>
      if JsString.truthy (JsString.trim (State.newItem closure))
      then Some idClock else None
  end.

(** ** What the page renders *)

(** [disabled={!newItem.trim()}] of the Add button (line 371). *)
Definition addButtonDisabled (st : State.t) : bool :=
  negb (JsString.truthy (JsString.trim (State.newItem st))).

(** [disabled={completedCount === 0}] of the Clear Completed button
    (line 527). *)
Definition clearButtonDisabled (st : State.t) : bool :=
  (completedCount st =? 0)%nat.

(** ** Vocabulary of the specification *)

(** [selects P l l']: [l'] is [l] with exactly the elements that satisfy
    [P] kept, each as often as it occurs and in its original position
    relative to the others. *)
Inductive selects {A} (P : A → Prop) : list A → list A → Prop :=
| selects_nil : selects P [] []
| selects_keep x l l' : P x → selects P l l' → selects P (x :: l) (x :: l')
| selects_drop x l l' : ¬ P x → selects P l l' → selects P (x :: l) l'.

(** [p] occurs in [s] as a contiguous substring. *)
Definition substring_of (p s : jsstring) : Prop :=
  ∃ pre suf, s = pre ++ p ++ suf.

(** Two items that differ at most in [quantity]. *)
Definition same_but_quantity (a b : GroceryItem.t) : Prop :=
  GroceryItem.id a = GroceryItem.id b
  ∧ GroceryItem.name a = GroceryItem.name b
  ∧ GroceryItem.category a = GroceryItem.category b
  ∧ GroceryItem.unit a = GroceryItem.unit b
  ∧ GroceryItem.completed a = GroceryItem.completed b
  ∧ GroceryItem.priority a = GroceryItem.priority b
  ∧ GroceryItem.estimatedPrice a = GroceryItem.estimatedPrice b
  ∧ GroceryItem.addedAt a = GroceryItem.addedAt b.

(** The number of completed items, counted one item at a time. *)
Fixpoint count_completed (items : list GroceryItem.t) : nat :=
  match items with
  | [] => O
  | item :: items' =>
      ((if GroceryItem.completed item then 1 else 0) + count_completed items')%nat
  end.

(** The data-model invariants of a collection. *)
Definition quantities_positive (items : list GroceryItem.t) : Prop :=
  Forall (λ item, 1 <= GroceryItem.quantity item) items.

Definition categories_known (items : list GroceryItem.t) : Prop :=
  Forall (λ item, GroceryItem.category item ∈ map Category.id categories) items.

Definition ids_unique (items : list GroceryItem.t) : Prop :=
  NoDup (map GroceryItem.id items).

Definition dates_valid (items : list GroceryItem.t) : Prop :=
  Forall (λ item, DateTime.valid (GroceryItem.addedAt item)) items.

(** Some substring of [s] equals [p] up to the case mapping [lower] of
    single code units. *)
Definition caseless_substring_of (lower : N → N) (p s : jsstring) : Prop :=
  ∃ pre mid suf, s = pre ++ mid ++ suf ∧ map lower mid = map lower p.

(** Simple case folding on the ASCII range and on the Greek letters
    without diacritics: a capital folds to its small letter, and final
    sigma to sigma.  Two code units are the same letter up to case when
    they fold to the same code unit. *)
Definition caseFold (c : N) : N :=
  if ((65 <=? c) && (c <=? 90))%N then (c + 32)%N
  else if ((913 <=? c) && (c <=? 937))%N then (c + 32)%N
  else if (c =? 962)%N then 963%N
  else c.

(** What the development uses of the host's [toLowerCase]: its values on
    ASCII strings and on strings of Greek letters. *)
Definition host_toLowerCase (toLowerCase : jsstring → jsstring) : Prop :=
  (∀ s, JsString.isAscii s → toLowerCase s = map JsString.lowerAscii s)
  ∧ (∀ s, JsString.isGreek s → toLowerCase s = JsString.lowerGreek s).

(** A function with these values, the identity on every other string. *)
Definition lowerKnown (s : jsstring) : jsstring :=
  if decide (JsString.isAscii s) then map JsString.lowerAscii s
  else if decide (JsString.isGreek s) then JsString.lowerGreek s
  else s.

(** An add of the run meets no item whose id is the decimal rendering of
    the clock reading it takes. *)
Fixpoint clocks_fresh_along (ops : list Operation) (st : State.t) : Prop :=
  match ops with
  | [] => True
  | op :: ops' =>
      (∀ clock, idClock_of op st = Some clock →
         JsString.ofInteger clock ∉ map GroceryItem.id (State.items st))
      ∧ clocks_fresh_along ops' (perform op st)
  end.

(** An item passes the filter stage: its lower-cased name contains the
    lower-cased search term, and its category is the filter category
    unless that is ["all"]. *)
Definition search_matches (toLowerCase : jsstring → jsstring)
    (st : State.t) (item : GroceryItem.t) : Prop :=
  substring_of (toLowerCase (State.searchTerm st))
               (toLowerCase (GroceryItem.name item))
  ∧ (State.filterCategory st = js "all"
     ∨ GroceryItem.category item = State.filterCategory st).

(** The items of a group of the projected view. *)
Definition group_items (entry : jsstring * Group) : list GroceryItem.t :=
  snd (snd entry).

(** The groups the ['category'] view builds from the filtered items, one
    category at a time and skipping a category with no item: what the
    [reduce] of [groupedItems] leaves in its accumulator. *)
Definition category_groups (filtered : list GroceryItem.t)
    (cats : list Category.t) : JsObject Group :=
  flat_map
    (λ c,
       match List.filter
               (λ item, JsString.eqb (GroceryItem.category item) (Category.id c))
               filtered with
       | [] => []
       | categoryItems => [(Category.id c, (Some c, categoryItems))]
       end)
    cats.

(** Two items that differ at most in [completed]. *)
Definition same_but_completed (a b : GroceryItem.t) : Prop :=
  GroceryItem.id a = GroceryItem.id b
  ∧ GroceryItem.name a = GroceryItem.name b
  ∧ GroceryItem.category a = GroceryItem.category b
  ∧ GroceryItem.quantity a = GroceryItem.quantity b
  ∧ GroceryItem.unit a = GroceryItem.unit b
  ∧ GroceryItem.priority a = GroceryItem.priority b
  ∧ GroceryItem.estimatedPrice a = GroceryItem.estimatedPrice b
  ∧ GroceryItem.addedAt a = GroceryItem.addedAt b.

(** What [addItem] guarantees of an item it creates, apart from its
    quantity: a non-empty name without white space at either end, a
    category of the table, a unit of the unit list, no price, a valid
    date, and as id the decimal rendering of a valid clock reading. *)
Definition item_wellformed (item : GroceryItem.t) : Prop :=
  GroceryItem.name item ≠ []
  ∧ JsString.trim (GroceryItem.name item) = GroceryItem.name item
  ∧ GroceryItem.category item ∈ map Category.id categories
  ∧ GroceryItem.unit item ∈ unitOptions
  ∧ GroceryItem.estimatedPrice item = None
  ∧ DateTime.valid (GroceryItem.addedAt item)
  ∧ ∃ clock, DateTime.valid (Some clock)
             ∧ GroceryItem.id item = JsString.ofInteger clock.

(** * Properties *)

(** ** Strings *)

Definition whitespace (c : N) : Prop := JsString.isWhiteSpace c = true.

Lemma eqb_true (a b : jsstring) : JsString.eqb a b = true ↔ a = b.
Proof. unfold JsString.eqb. apply bool_decide_eq_true. Qed.

Lemma eqb_false (a b : jsstring) : JsString.eqb a b = false ↔ a ≠ b.
Proof. unfold JsString.eqb. apply bool_decide_eq_false. Qed.

Lemma eqb_refl (a : jsstring) : JsString.eqb a a = true.
Proof. by apply eqb_true. Qed.

Lemma truthy_true (s : jsstring) : JsString.truthy s = true ↔ s ≠ [].
Proof. destruct s; simpl; split; congruence. Qed.

Lemma trimStart_split (s : jsstring) :
  ∃ l, s = l ++ JsString.trimStart s ∧ Forall whitespace l.
Proof.
  induction s as [|c s [l [Hs Hl]]]; simpl.
  - by exists [].
  - destruct (JsString.isWhiteSpace c) eqn:Hc.
    + exists (c :: l). split; [by rewrite <- app_comm_cons, <- Hs|].
      by constructor.
    + by exists [].
Qed.

Lemma trimStart_head (s : jsstring) (c : N) :
  head (JsString.trimStart s) = Some c → ¬ whitespace c.
Proof.
  induction s as [|d s IH]; simpl; [done|].
  destruct (JsString.isWhiteSpace d) eqn:Hd; [done|].
  simpl. intros [= <-]. unfold whitespace. congruence.
Qed.

Lemma trimStart_nil (s : jsstring) :
  JsString.trimStart s = [] ↔ Forall whitespace s.
Proof.
  induction s as [|c s IH]; simpl; [done|].
  destruct (JsString.isWhiteSpace c) eqn:Hc.
  - rewrite IH. split; [by constructor | by inv 1].
  - split; [done|]. inv 1. unfold whitespace in *. congruence.
Qed.

Lemma trimStart_idem (s : jsstring) :
  JsString.trimStart (JsString.trimStart s) = JsString.trimStart s.
Proof.
  induction s as [|c s IH]; simpl; [done|].
  destruct (JsString.isWhiteSpace c) eqn:Hc; [done|].
  simpl. by rewrite Hc.
Qed.

Lemma trimStart_whitespace (s : jsstring) :
  Forall whitespace (JsString.trimStart s) ↔ Forall whitespace s.
Proof.
  rewrite <- !trimStart_nil. by rewrite trimStart_idem.
Qed.

(** [trim] returns the empty string exactly on the strings made of white
    space only (the empty one among them). *)
Lemma trim_nil (s : jsstring) :
  JsString.trim s = [] ↔ Forall whitespace s.
Proof.
  unfold JsString.trim, JsString.trimEnd.
  rewrite <- trimStart_whitespace, <- (Forall_reverse _ (JsString.trimStart s)).
  rewrite <- trimStart_nil.
  split; intros H.
  - apply (f_equal reverse) in H. by rewrite reverse_involutive in H.
  - by rewrite H.
Qed.

(** [trim] removes a run of white space at each end and nothing else; what
    is left neither starts nor ends with white space. *)
Lemma trim_split (s : jsstring) :
  ∃ l r, s = l ++ JsString.trim s ++ r
         ∧ Forall whitespace l ∧ Forall whitespace r
         ∧ (∀ c, head (JsString.trim s) = Some c → ¬ whitespace c)
         ∧ (∀ c, last (JsString.trim s) = Some c → ¬ whitespace c).
Proof.
  destruct (trimStart_split s) as [l [Hs Hl]].
  destruct (trimStart_split (reverse (JsString.trimStart s))) as [r [Hr Hwr]].
  exists l, (reverse r). unfold JsString.trim, JsString.trimEnd.
  set (m := JsString.trimStart (reverse (JsString.trimStart s))) in *.
  assert (Hmid : JsString.trimStart s = reverse m ++ reverse r).
  { rewrite <- reverse_app, <- Hr. by rewrite reverse_involutive. }
  split_and!.
  - by rewrite <- Hmid.
  - done.
  - by apply Forall_reverse.
  - intros c Hc. destruct (reverse m) as [|c' m'] eqn:Hm; [done|].
    simpl in Hc. injection Hc as ->.
    apply (trimStart_head s c). by rewrite Hmid.
  - intros c Hc. apply (trimStart_head (reverse (JsString.trimStart s)) c).
    fold m. by rewrite last_reverse in Hc.
Qed.

Lemma filter_bool {A} (f : A → bool) (l : list A) :
  List.filter f l = filter (λ x, f x = true) l.
Proof.
  induction l as [|x l IH]; simpl; [done|].
  rewrite filter_cons. destruct (f x) eqn:Hx.
  - rewrite decide_True by done. by rewrite IH.
  - rewrite decide_False by congruence. done.
Qed.

Lemma Forall_filter_bool {A} (P : A → Prop) (f : A → bool) (l : list A) :
  Forall P l → Forall P (List.filter f l).
Proof.
  induction 1 as [|x l Hx _ IH]; simpl; [done|].
  destruct (f x); [by constructor | done].
Qed.

(** ** Adding an item *)

Lemma addItem_rejects (idClock dateClock : Z) (st : State.t) :
  JsString.trim (State.newItem st) = [] → addItem idClock dateClock st = st.
Proof. unfold addItem. by intros ->. Qed.

Lemma addItem_items (idClock dateClock : Z) (st : State.t) :
  JsString.trim (State.newItem st) ≠ [] →
  State.items (addItem idClock dateClock st)
  = State.items st
    ++ [GroceryItem.mk (JsString.ofInteger idClock)
          (JsString.trim (State.newItem st)) (State.selectedCategory st)
          (State.quantity st) (State.unit st) false
          (State.selectedPriority st) None (Some dateClock)].
Proof.
  intros H%truthy_true. unfold addItem. by rewrite H.
Qed.

(** C1. A call of [addItem] whose name is not empty after trimming makes
    the collection exactly one item longer: the old items followed by one
    new item that is not completed and carries the trimmed name and the
    category, quantity, unit and priority of the form.  A call whose name
    is empty or made of white space only (which is when its trimmed form
    is empty) changes nothing at all, so no item is created. *)
Theorem addItem_appends_or_ignores (idClock dateClock : Z) (st : State.t) :
  let st' := addItem idClock dateClock st in
  (JsString.trim (State.newItem st) ≠ [] →
     ∃ item,
       State.items st' = State.items st ++ [item]
       ∧ length (State.items st') = S (length (State.items st))
       ∧ last (State.items st') = Some item
       ∧ GroceryItem.completed item = false
       ∧ GroceryItem.name item = JsString.trim (State.newItem st)
       ∧ GroceryItem.category item = State.selectedCategory st
       ∧ GroceryItem.quantity item = State.quantity st
       ∧ GroceryItem.unit item = State.unit st
       ∧ GroceryItem.priority item = State.selectedPriority st)
  ∧ (JsString.trim (State.newItem st) = [] → st' = st)
  ∧ (Forall whitespace (State.newItem st) → st' = st).
Proof.
  intros st'. subst st'. split_and!.
  - intros H. eexists. rewrite (addItem_items _ _ _ H).
    split_and!; try reflexivity.
    + rewrite length_app. simpl. lia.
    + by rewrite last_snoc.
  - apply addItem_rejects.
  - intros H%trim_nil. by apply addItem_rejects.
Qed.

Lemma addItem_appends_or_ignores_witness :
  let st := State.setNewItem (js "  Milk ") State.initial in
  let st0 := State.setNewItem (js "   ") State.initial in
  (∃ item,
     State.items (addItem 1000 1000 st) = State.items st ++ [item]
     ∧ GroceryItem.name item = js "Milk")
  ∧ addItem 1000 1000 st0 = st0
  ∧ addItem 1000 1000 State.initial = State.initial.
Proof.
  intros st st0.
  pose proof (addItem_appends_or_ignores 1000 1000 st) as (Hadd & _ & _).
  pose proof (addItem_appends_or_ignores 1000 1000 st0) as (_ & _ & Hws).
  pose proof (addItem_appends_or_ignores 1000 1000 State.initial) as (_ & Hnil & _).
  split_and!.
  - destruct Hadd as (item & Hitems & _ & _ & _ & Hname & _); [by vm_compute|].
    exists item. split; [exact Hitems | exact Hname].
  - apply Hws. repeat constructor.
  - apply Hnil. reflexivity.
Defined.

(** ** Selections *)

Section Selects.
Context {A : Type}.
Implicit Types (P : A → Prop) (f : A → bool) (l : list A).

Lemma filter_selects P f l :
  (∀ x, f x = true ↔ P x) → selects P l (List.filter f l).
Proof.
  intros Hf. induction l as [|x l IH]; simpl; [constructor|].
  destruct (f x) eqn:Hx.
  - apply selects_keep; [by apply Hf | done].
  - apply selects_drop; [|done]. rewrite <- Hf. congruence.
Qed.

Lemma selects_functional P l l1 l2 :
  selects P l l1 → selects P l l2 → l1 = l2.
Proof.
  intros H1. revert l2.
  induction H1; inv 1; try done; f_equal; eauto.
Qed.

Lemma selects_sublist P l l' : selects P l l' → l' `sublist_of` l.
Proof.
  induction 1; [constructor | by apply sublist_skip | by apply sublist_cons].
Qed.

Lemma selects_elem_of P l l' x :
  selects P l l' → x ∈ l' ↔ x ∈ l ∧ P x.
Proof.
  induction 1 as [|y l l' Hy _ IH|y l l' Hy _ IH].
  - split; [by intros ?%elem_of_nil | by intros [?%elem_of_nil _]].
  - rewrite !elem_of_cons, IH.
    split; [intros [->|[??]]; auto | intros [[->|?] ?]; auto].
  - rewrite elem_of_cons, IH.
    split; [intros [??]; auto | intros [[->|?] ?]; [done | auto]].
Qed.

Lemma selects_all P l : Forall P l → selects P l l.
Proof. induction 1; by constructor. Qed.

Lemma selects_Forall P l l' : selects P l l' → Forall P l'.
Proof. induction 1; by try constructor. Qed.

Lemma selects_app P l1 l1' l2 l2' :
  selects P l1 l1' → selects P l2 l2' → selects P (l1 ++ l2) (l1' ++ l2').
Proof. induction 1; intros; simpl; by try constructor; auto. Qed.
End Selects.

(** ** Changing a quantity *)

Lemma with_quantity_same (n : Z) (item : GroceryItem.t) :
  same_but_quantity item (GroceryItem.with_quantity n item).
Proof. by repeat split. Qed.

Lemma same_but_quantity_refl (item : GroceryItem.t) : same_but_quantity item item.
Proof. by repeat split. Qed.

Lemma updateQuantity_rejects (id : jsstring) (n : Z) (st : State.t) :
  n < 1 → updateQuantity id n st = st.
Proof.
  intros Hn. unfold updateQuantity.
  by destruct (Z.ltb_spec n 1); [|lia].
Qed.

Lemma updateQuantity_lookup (id : jsstring) (n : Z) (st : State.t) (k : nat) :
  1 <= n →
  State.items (updateQuantity id n st) !! k
  = (λ item, if JsString.eqb (GroceryItem.id item) id
             then GroceryItem.with_quantity n item else item)
    <$> State.items st !! k.
Proof.
  intros Hn. unfold updateQuantity.
  destruct (Z.ltb_spec n 1); [lia|]. simpl.
  apply list_lookup_fmap.
Qed.

(** C5. [updateQuantity id n] with [n >= 1] keeps the collection's length
    and positions, gives quantity [n] to every item whose id is [id]
    (leaving its other fields alone) and leaves every other item as it
    was; so when [id] is present, the collection afterwards holds an item
    with that id and quantity exactly [n].  With [n < 1] the whole state is
    returned unchanged: nothing is clamped to 1 and nothing fails. *)
Theorem updateQuantity_sets_or_rejects (id : jsstring) (n : Z) (st : State.t) :
  let st' := updateQuantity id n st in
  (1 <= n →
     length (State.items st') = length (State.items st)
     ∧ (∀ k item, State.items st !! k = Some item →
          ∃ item', State.items st' !! k = Some item'
            ∧ same_but_quantity item item'
            ∧ (GroceryItem.id item = id → GroceryItem.quantity item' = n)
            ∧ (GroceryItem.id item ≠ id → item' = item))
     ∧ (id ∈ map GroceryItem.id (State.items st) →
          ∃ item', item' ∈ State.items st'
            ∧ GroceryItem.id item' = id ∧ GroceryItem.quantity item' = n))
  ∧ (n < 1 → st' = st).
Proof.
  intros st'. subst st'. split; [|apply updateQuantity_rejects].
  intros Hn.
  assert (Hlook : ∀ k item, State.items st !! k = Some item →
            ∃ item', State.items (updateQuantity id n st) !! k = Some item'
              ∧ same_but_quantity item item'
              ∧ (GroceryItem.id item = id → GroceryItem.quantity item' = n)
              ∧ (GroceryItem.id item ≠ id → item' = item)).
  { intros k item Hk. rewrite updateQuantity_lookup, Hk by done. simpl.
    destruct (JsString.eqb (GroceryItem.id item) id) eqn:Hid.
    - eexists. split_and!; [done | apply with_quantity_same | done |].
      intros Hne. by apply eqb_true in Hid.
    - exists item. split_and!; [done | apply same_but_quantity_refl | | done].
      intros Heq. by apply eqb_false in Hid. }
  split_and!; [| exact Hlook |].
  - unfold updateQuantity. destruct (Z.ltb_spec n 1); [done|].
    simpl. apply length_fmap.
  - intros (item & Hid & Hin)%list_elem_of_fmap.
    apply list_elem_of_lookup in Hin as [k Hk].
    destruct (Hlook k item Hk) as (item' & Hk' & Hsame & Hq & _).
    exists item'. split_and!.
    + apply list_elem_of_lookup. by exists k.
    + destruct Hsame as [<- _]. done.
    + by apply Hq.
Qed.

Lemma updateQuantity_sets_or_rejects_witness :
  let milk := GroceryItem.mk (js "7") (js "Milk") (js "dairy") 2 (js "l")
                false medium None (Some 7) in
  let st := State.setItems (λ _, [milk]) State.initial in
  (∃ item', item' ∈ State.items (updateQuantity (js "7") 5 st)
            ∧ GroceryItem.id item' = js "7" ∧ GroceryItem.quantity item' = 5)
  ∧ updateQuantity (js "7") 0 st = st
  ∧ updateQuantity (js "7") (-1) st = st.
Proof.
  intros milk st. split_and!.
  - destruct (updateQuantity_sets_or_rejects (js "7") 5 st) as [H _].
    destruct H as (_ & _ & H); [lia|].
    apply H. apply list_elem_of_here.
  - destruct (updateQuantity_sets_or_rejects (js "7") 0 st) as [_ H].
    apply H. lia.
  - destruct (updateQuantity_sets_or_rejects (js "7") (-1) st) as [_ H].
    apply H. lia.
Defined.

(** ** Clearing completed items *)

Lemma clearCompleted_selects (st : State.t) :
  selects (λ item, GroceryItem.completed item = false)
    (State.items st) (State.items (clearCompleted st)).
Proof.
  unfold clearCompleted. simpl. apply filter_selects.
  intros item. by destruct (GroceryItem.completed item).
Qed.

Lemma clearCompleted_fixed (st : State.t) :
  Forall (λ item, GroceryItem.completed item = false) (State.items st) →
  clearCompleted st = st.
Proof.
  intros H. apply selects_all in H.
  pose proof (selects_functional _ _ _ _ (clearCompleted_selects st) H) as Heq.
  unfold clearCompleted in *. destruct st. simpl in *.
  unfold State.setItems. simpl. by rewrite Heq.
Qed.

Lemma length_filter_completed (items : list GroceryItem.t) :
  length (List.filter (λ item, GroceryItem.completed item) items)
  = count_completed items.
Proof.
  induction items as [|item items IH]; simpl; [done|].
  destruct (GroceryItem.completed item); simpl; by rewrite IH.
Qed.

Lemma length_filter_not_completed (items : list GroceryItem.t) :
  (length (List.filter (λ item, negb (GroceryItem.completed item)) items)
   + count_completed items = length items)%nat.
Proof.
  induction items as [|item items IH]; simpl; [done|].
  destruct (GroceryItem.completed item); simpl; lia.
Qed.

(** C6. [clearCompleted] keeps exactly the items that are not completed,
    each in its original position relative to the others, and removes
    exactly the completed ones (the collection shrinks by their number);
    nothing else of the state changes.  It is idempotent, and more
    generally it returns unchanged any state with no completed item. *)
Theorem clearCompleted_removes_completed (st : State.t) :
  let kept := State.items (clearCompleted st) in
  selects (λ item, GroceryItem.completed item = false) (State.items st) kept
  ∧ kept `sublist_of` State.items st
  ∧ (∀ item, item ∈ kept ↔ item ∈ State.items st ∧ GroceryItem.completed item = false)
  ∧ (length kept + count_completed (State.items st) = length (State.items st))%nat
  ∧ clearCompleted st = State.setItems (λ _, kept) st
  ∧ clearCompleted (clearCompleted st) = clearCompleted st
  ∧ (Forall (λ item, GroceryItem.completed item = false) (State.items st) →
     clearCompleted st = st).
Proof.
  intros kept. pose proof (clearCompleted_selects st) as Hsel.
  split_and!.
  - exact Hsel.
  - by eapply selects_sublist.
  - intros item. exact (selects_elem_of _ _ _ item Hsel).
  - apply length_filter_not_completed.
  - done.
  - apply clearCompleted_fixed. by eapply selects_Forall.
  - apply clearCompleted_fixed.
Qed.

Lemma clearCompleted_removes_completed_witness :
  let milk := GroceryItem.mk (js "7") (js "Milk") (js "dairy") 2 (js "l")
                false medium None (Some 7) in
  let st := State.setItems (λ _, [milk]) State.initial in
  clearCompleted st = st.
Proof.
  intros milk st.
  destruct (clearCompleted_removes_completed st) as (_ & _ & _ & _ & _ & _ & H).
  apply H. by repeat constructor.
Defined.

(** ** Searching *)

Lemma startsWith_prefix (s p : jsstring) :
  JsString.startsWith s p = true ↔ ∃ suf, s = p ++ suf.
Proof.
  revert s. induction p as [|c p IH]; intros s; simpl.
  - split; [intros _; by exists s | done].
  - destruct s as [|d s].
    + split; [done | by intros [? ?]].
    + rewrite andb_true_iff, N.eqb_eq, IH. split.
      * intros [-> [suf ->]]. by exists suf.
      * intros [suf [= -> ->]]. split; [done | by exists suf].
Qed.

Lemma includes_substring (s p : jsstring) :
  JsString.includes s p = true ↔ substring_of p s.
Proof.
  unfold substring_of. induction s as [|d s IH]; simpl.
  - rewrite orb_false_r, startsWith_prefix. split.
    + intros [suf ->]. by exists [], suf.
    + intros (pre & suf & H). symmetry in H.
      apply app_eq_nil in H as [-> H]. apply app_eq_nil in H as [-> ->].
      by exists [].
  - rewrite orb_true_iff, startsWith_prefix, IH. split.
    + intros [[suf ->] | (pre & suf & ->)].
      * by exists [], suf.
      * by exists (d :: pre), suf.
    + intros (pre & suf & H). destruct pre as [|d' pre]; simpl in H.
      * left. by exists suf.
      * injection H as <- ->. right. by exists pre, suf.
Qed.

Lemma substring_of_map (lower : N → N) (p s : jsstring) :
  substring_of (map lower p) (map lower s) ↔ caseless_substring_of lower p s.
Proof.
  unfold substring_of, caseless_substring_of. split.
  - intros (pre & suf & H).
    apply fmap_app_inv in H as (pre' & rest & -> & H & ->).
    symmetry in H.
    apply fmap_app_inv in H as (mid & suf' & Hmid & -> & ->).
    by exists pre', mid, suf'.
  - intros (pre & mid & suf & -> & Hmid).
    exists (map lower pre), (map lower suf).
    by rewrite !map_app, Hmid.
Qed.

(** ** The filter stage *)

Lemma lowerKnown_host : host_toLowerCase lowerKnown.
Proof.
  split; intros s Hs; unfold lowerKnown.
  - by rewrite decide_True.
  - destruct (decide (JsString.isAscii s)) as [Ha|_]; [|by rewrite decide_True].
    destruct s as [|c s]; [done|].
    apply Forall_cons in Ha as [Ha _]. apply Forall_cons in Hs as [Hs _].
    unfold JsString.isGreekLetter in Hs.
    apply orb_true_iff in Hs as [Hs|Hs];
      repeat (apply andb_true_iff in Hs as [Hs ?]);
      apply N.leb_le in Hs; lia.
Qed.

Section FilterStage.
Variable toLowerCase : jsstring → jsstring.

Lemma filteredItems_selects (st : State.t) :
  selects (search_matches toLowerCase st)
    (State.items st) (filteredItems toLowerCase st).
Proof.
  unfold filteredItems. apply filter_selects. intros item.
  unfold search_matches. simpl.
  rewrite andb_true_iff, orb_true_iff, includes_substring, !eqb_true.
  done.
Qed.

Lemma filteredItems_sublist (st : State.t) :
  filteredItems toLowerCase st `sublist_of` State.items st.
Proof. eapply selects_sublist, filteredItems_selects. Qed.

(** C4, amended. The filter stage keeps exactly the items for which
    [toLowerCase] of the name contains [toLowerCase] of the search term as
    a substring and whose category is the filter category, the second
    condition being void when the filter category is ["all"]; the kept
    items stay in their original order.  [toLowerCase] maps A..Z to a..z
    on ASCII strings, so when the name and the search term are ASCII the
    first condition says that some substring of the name equals the
    search term up to the case of its letters; in particular searching
    ["mil"], ["MIL"] or ["mIl"] among the items named ["Milk"] and
    ["Bread"] (no category filter) keeps only ["Milk"]. *)
Theorem filteredItems_keeps_matches (st : State.t) :
  let kept := filteredItems toLowerCase st in
  selects (search_matches toLowerCase st) (State.items st) kept
  ∧ kept `sublist_of` State.items st
  ∧ (∀ item,
       item ∈ kept ↔
       item ∈ State.items st
       ∧ substring_of (toLowerCase (State.searchTerm st))
                      (toLowerCase (GroceryItem.name item))
       ∧ (State.filterCategory st = js "all"
          ∨ GroceryItem.category item = State.filterCategory st))
  ∧ ((∀ s, JsString.isAscii s → toLowerCase s = map JsString.lowerAscii s) →
     JsString.isAscii (State.searchTerm st) →
     ∀ item,
       JsString.isAscii (GroceryItem.name item) →
       item ∈ kept ↔
       item ∈ State.items st
       ∧ caseless_substring_of JsString.lowerAscii
           (State.searchTerm st) (GroceryItem.name item)
       ∧ (State.filterCategory st = js "all"
          ∨ GroceryItem.category item = State.filterCategory st))
  ∧ ((∀ s, JsString.isAscii s → toLowerCase s = map JsString.lowerAscii s) →
     map GroceryItem.name (State.items st) = [js "Milk"; js "Bread"] →
     State.filterCategory st = js "all" →
     State.searchTerm st ∈ [js "mil"; js "MIL"; js "mIl"] →
     map GroceryItem.name kept = [js "Milk"]).
Proof.
  intros kept. pose proof (filteredItems_selects st) as Hsel.
  split_and!.
  - exact Hsel.
  - apply filteredItems_sublist.
  - intros item. apply (selects_elem_of _ _ _ item Hsel).
  - intros Hlower Hterm item Hname. unfold kept.
    rewrite (selects_elem_of _ _ _ item Hsel). unfold search_matches.
    by rewrite !Hlower, substring_of_map.
  - intros Hlower Hnames Hall Hterm. subst kept. unfold filteredItems.
    destruct (State.items st) as [|milk [|bread [|? ?]]]; try done.
    injection Hnames as Hmilk Hbread.
    assert (Hlow : ∀ s, bool_decide (JsString.isAscii s) = true →
                     toLowerCase s = map JsString.lowerAscii s).
    { intros s Hs. apply Hlower. by apply bool_decide_eq_true in Hs. }
    simpl. rewrite Hmilk, Hbread, Hall, eqb_refl.
    rewrite !(Hlow (js "Milk")), !(Hlow (js "Bread")) by reflexivity.
    repeat (apply elem_of_cons in Hterm as [-> | Hterm]);
      [| | | by apply elem_of_nil in Hterm];
      (rewrite Hlow by reflexivity);
      repeat match goal with
        | |- context [JsString.includes ?a ?b] =>
            let v := eval vm_compute in (JsString.includes a b) in
            change (JsString.includes a b) with v
        end;
      simpl; by rewrite Hmilk.
Qed.
End FilterStage.

Lemma filteredItems_keeps_matches_witness :
  let milk := GroceryItem.mk (js "1") (js "Milk") (js "dairy") 1 (js "l")
                false medium None (Some 1) in
  let bread := GroceryItem.mk (js "2") (js "Bread") (js "bakery") 1 (js "pc")
                 false medium None (Some 2) in
  let st := State.setSearchTerm (js "MIL")
              (State.setItems (λ _, [milk; bread]) State.initial) in
  map GroceryItem.name (filteredItems lowerKnown st) = [js "Milk"]
  ∧ milk ∈ filteredItems lowerKnown st.
Proof.
  intros milk bread st.
  destruct (filteredItems_keeps_matches lowerKnown st)
    as (_ & _ & _ & Hcase & H).
  pose proof lowerKnown_host as [Hascii _].
  split.
  - apply H.
    + exact Hascii.
    + reflexivity.
    + reflexivity.
    + apply list_elem_of_further, list_elem_of_here.
  - apply Hcase.
    + exact Hascii.
    + apply (bool_decide_unpack _). by vm_compute.
    + apply (bool_decide_unpack _). by vm_compute.
    + split_and!.
      * apply list_elem_of_here.
      * by exists [], (js "Mil"), (js "k").
      * by left.
Defined.

(** C4 as stated fails.  The name alpha, final sigma contains the search
    term capital sigma up to case, since final sigma is a small form of
    capital sigma, and there is no category filter; yet the filter stage
    drops the item, because [toLowerCase] turns a capital sigma that
    stands alone into sigma, which the name does not contain.  The longer
    search term capital alpha, capital sigma keeps the item, so the
    items kept are not those that contain the search term in any sense:
    a name containing the longer term would contain the shorter one. *)
Lemma filteredItems_not_caseless :
  let item := GroceryItem.mk (js "1") [945; 962]%N (js "produce") 1 (js "pc")
                false medium None (Some 1) in
  let st := State.setSearchTerm [931]%N
              (State.setItems (λ _, [item]) State.initial) in
  (item ∈ State.items st
   ∧ caseless_substring_of caseFold (State.searchTerm st) (GroceryItem.name item)
   ∧ State.filterCategory st = js "all")
  ∧ substring_of (State.searchTerm st) [913; 931]%N
  ∧ ∀ toLowerCase, host_toLowerCase toLowerCase →
      (item ∉ filteredItems toLowerCase st)
      ∧ item ∈ filteredItems toLowerCase (State.setSearchTerm [913; 931]%N st).
Proof.
  intros item st. split_and!.
  - apply list_elem_of_here.
  - by exists [945%N], [962%N], [].
  - reflexivity.
  - by exists [913%N], [].
  - intros toLowerCase [_ Hgreek].
    assert (Hlow : ∀ s, bool_decide (JsString.isGreek s) = true →
                     toLowerCase s = JsString.lowerGreek s).
    { intros s Hs. apply Hgreek. by apply bool_decide_eq_true in Hs. }
    unfold filteredItems. simpl.
    rewrite !Hlow by reflexivity.
    split.
    + by intros ?%elem_of_nil.
    + apply list_elem_of_here.
Qed.

(** ** The group stage *)

Lemma obj_set_fresh {V} (k : jsstring) (v : V) (obj : JsObject V) :
  k ∉ map fst obj → obj_set k v obj = obj ++ [(k, v)].
Proof.
  induction obj as [|[k' v'] obj IH]; simpl; [done|].
  intros Hk. apply not_elem_of_cons in Hk as [Hne Hk].
  destruct (JsString.eqb k' k) eqn:Heq.
  - apply eqb_true in Heq. congruence.
  - by rewrite IH.
Qed.

Lemma categories_ids :
  map Category.id categories
  = [js "produce"; js "dairy"; js "meat"; js "bakery"; js "pantry";
     js "frozen"; js "household"; js "other"].
Proof. reflexivity. Qed.

Lemma categories_NoDup : NoDup (map Category.id categories).
Proof. apply (bool_decide_unpack _). by vm_compute. Qed.

Lemma filter_category (k : jsstring) (l : list GroceryItem.t) :
  List.filter (λ item, JsString.eqb (GroceryItem.category item) k) l
  = filter (λ item, GroceryItem.category item = k) l.
Proof.
  rewrite filter_bool. apply list_filter_iff. intros item. apply eqb_true.
Qed.

Lemma filter_category_nil (k : jsstring) (l : list GroceryItem.t) :
  List.filter (λ item, JsString.eqb (GroceryItem.category item) k) l = []
  ↔ k ∉ map GroceryItem.category l.
Proof.
  rewrite filter_category. induction l as [|item l IH]; simpl.
  - split; [intros _; apply not_elem_of_nil | done].
  - rewrite filter_cons, not_elem_of_cons. case_decide as Hk.
    + split; [done | intros [Hne _]; congruence].
    + rewrite IH. split; [intros ?; split; congruence | by intros [_ ?]].
Qed.

Lemma fold_category_groups (filtered : list GroceryItem.t)
    (cats : list Category.t) (acc : JsObject Group) :
  NoDup (map Category.id cats) →
  (∀ c, c ∈ cats → Category.id c ∉ map fst acc) →
  fold_left
    (λ acc category,
       let categoryItems :=
         List.filter
           (λ item, JsString.eqb (GroceryItem.category item) (Category.id category))
           filtered in
       if (0 <? length categoryItems)%nat
       then obj_set (Category.id category) (Some category, categoryItems) acc
       else acc)
    cats acc
  = acc ++ category_groups filtered cats.
Proof.
  revert acc. induction cats as [|c cats IH]; intros acc Hnd Hacc; simpl.
  - by rewrite app_nil_r.
  - apply NoDup_cons in Hnd as [Hc Hnd].
    destruct (List.filter _ filtered) as [|item its] eqn:Hits; simpl.
    + apply IH; [done|]. intros c' Hc'. apply Hacc. by right.
    + rewrite obj_set_fresh by (apply Hacc; by left).
      rewrite IH, <- app_assoc; [done | done |].
      intros c' Hc'. rewrite map_app. simpl.
      rewrite elem_of_app, list_elem_of_singleton.
      intros [Hin | Heq].
      * by apply (Hacc c'); [right|].
      * apply Hc. rewrite <- Heq. apply list_elem_of_fmap. by exists c'.
Qed.

Lemma category_groups_keys (filtered : list GroceryItem.t) (cats : list Category.t) :
  map fst (category_groups filtered cats)
  = filter (λ k, k ∈ map GroceryItem.category filtered) (map Category.id cats).
Proof.
  unfold category_groups.
  induction cats as [|c cats IH]; simpl; [done|].
  rewrite map_app, filter_cons.
  destruct (List.filter _ filtered) as [|item its] eqn:Hits; simpl.
  - apply filter_category_nil in Hits. rewrite decide_False by done. exact IH.
  - rewrite decide_True; [f_equal; exact IH|].
    destruct (decide (Category.id c ∈ map GroceryItem.category filtered)) as [|Hn];
      [done|].
    apply filter_category_nil in Hn. congruence.
Qed.

Lemma category_groups_entry (filtered : list GroceryItem.t)
    (cats : list Category.t) (k : jsstring) (g : Group) :
  (k, g) ∈ category_groups filtered cats →
  ∃ c, c ∈ cats ∧ Category.id c = k ∧ fst g = Some c ∧ snd g ≠ []
       ∧ snd g = filter (λ item, GroceryItem.category item = k) filtered.
Proof.
  unfold category_groups. rewrite list_elem_of_In, in_flat_map.
  intros (c & Hc%list_elem_of_In & Hin).
  destruct (List.filter _ filtered) as [|item its] eqn:Hits; [done|].
  destruct Hin as [[= <- <-]|[]]. exists c. simpl.
  split_and!; try done. by rewrite <- Hits, filter_category.
Qed.

Lemma filter_or_disjoint {A} (P Q : A → Prop)
    `{∀ x, Decision (P x), ∀ x, Decision (Q x)} (l : list A) :
  (∀ x, P x → Q x → False) →
  filter (λ x, P x ∨ Q x) l ≡ₚ filter P l ++ filter Q l.
Proof.
  intros Hdisj. induction l as [|x l IH]; [done|].
  rewrite !filter_cons.
  destruct (decide (P x)) as [Hp|Hp], (decide (Q x)) as [Hq|Hq].
  - by destruct (Hdisj x).
  - rewrite decide_True by auto. simpl. by rewrite IH.
  - rewrite decide_True by auto. rewrite IH. apply Permutation_middle.
  - rewrite decide_False by (intros [?|?]; done). done.
Qed.

Lemma category_groups_concat (filtered : list GroceryItem.t) (cats : list Category.t) :
  NoDup (map Category.id cats) →
  concat (map group_items (category_groups filtered cats))
  ≡ₚ filter (λ item, GroceryItem.category item ∈ map Category.id cats) filtered.
Proof.
  unfold category_groups.
  induction cats as [|c cats IH]; intros Hnd; simpl.
  - rewrite (list_filter_iff _ (λ _, False)).
    + by induction filtered.
    + intros item. split; [by intros ?%elem_of_nil | done].
  - simpl in Hnd. apply NoDup_cons in Hnd as [Hc Hnd].
    rewrite map_app, concat_app, (IH Hnd).
    rewrite (list_filter_iff
               (λ item, GroceryItem.category item
                        ∈ Category.id c :: map Category.id cats)
               (λ item, GroceryItem.category item = Category.id c
                        ∨ GroceryItem.category item ∈ map Category.id cats))
      by (intros item; apply elem_of_cons).
    rewrite filter_or_disjoint by (intros item -> ?; done).
    apply Permutation_app_tail.
    rewrite <- filter_category.
    destruct (List.filter _ filtered) as [|item its]; simpl; [done|].
    by rewrite app_nil_r.
Qed.

Section GroupStage.
Variable toLowerCase : jsstring → jsstring.

Lemma groupedItems_category (st : State.t) :
  State.viewMode st = view_category →
  groupedItems toLowerCase st
  = category_groups (filteredItems toLowerCase st) categories.
Proof.
  intros Hmode. unfold groupedItems. rewrite Hmode.
  rewrite fold_category_groups; [done | apply categories_NoDup |].
  intros c _. apply not_elem_of_nil.
Qed.

(** C3. In the ['category'] view the groups are, in the order of the
    [categories] table (produce, dairy, meat, bakery, pantry, frozen,
    household, other), exactly the categories that some filtered item
    has; each group carries its category's record and holds exactly the
    filtered items of that category, at least one, in their original
    relative order; no category appears twice.  The groups together hold
    the filtered items whose category is in the table, each once, so they
    partition the filtered items of a collection whose categories all are
    in the table. *)
Theorem groupedItems_by_category (st : State.t) :
  State.viewMode st = view_category →
  let filtered := filteredItems toLowerCase st in
  let groups := groupedItems toLowerCase st in
  map Category.id categories
  = [js "produce"; js "dairy"; js "meat"; js "bakery"; js "pantry";
     js "frozen"; js "household"; js "other"]
  ∧ map fst groups
    = filter (λ k, k ∈ map GroceryItem.category filtered)
        (map Category.id categories)
  ∧ map fst groups `sublist_of` map Category.id categories
  ∧ NoDup (map fst groups)
  ∧ (∀ k g, (k, g) ∈ groups →
       ∃ c, c ∈ categories ∧ Category.id c = k ∧ fst g = Some c
            ∧ snd g ≠ []
            ∧ selects (λ item, GroceryItem.category item = k) filtered (snd g)
            ∧ snd g `sublist_of` State.items st)
  ∧ concat (map group_items groups)
    ≡ₚ filter (λ item, GroceryItem.category item ∈ map Category.id categories)
         filtered
  ∧ (categories_known (State.items st) →
     concat (map group_items groups) ≡ₚ filtered).
Proof.
  intros Hmode filtered groups.
  assert (Hgroups : groups = category_groups filtered categories)
    by (by apply groupedItems_category).
  assert (Hkeys : map fst groups
                  = filter (λ k, k ∈ map GroceryItem.category filtered)
                      (map Category.id categories))
    by (rewrite Hgroups; apply category_groups_keys).
  assert (Hsub : map fst groups `sublist_of` map Category.id categories)
    by (rewrite Hkeys; apply sublist_filter).
  assert (Hconcat : concat (map group_items groups)
            ≡ₚ filter (λ item, GroceryItem.category item
                               ∈ map Category.id categories) filtered)
    by (rewrite Hgroups; apply category_groups_concat, categories_NoDup).
  split_and!; try done.
  - eapply sublist_NoDup; [apply categories_NoDup | exact Hsub].
  - intros k g Hin. rewrite Hgroups in Hin.
    apply category_groups_entry in Hin as (c & Hc & Hk & Hg & Hne & Hits).
    exists c. split_and!; try done.
    + rewrite Hits, <- filter_category. apply filter_selects.
      intros item. apply eqb_true.
    + rewrite Hits. etrans; [apply sublist_filter|].
      apply filteredItems_sublist.
  - intros Hknown. rewrite Hconcat.
    assert (Hall : Forall (λ item, GroceryItem.category item
                                   ∈ map Category.id categories) filtered).
    { apply Forall_forall. intros item Hitem.
      apply (proj1 (Forall_forall _ _) Hknown).
      eapply elem_of_sublist; [exact Hitem | apply filteredItems_sublist]. }
    clear -Hall. induction Hall as [|item l Hitem _ IH]; [done|].
    rewrite filter_cons, decide_True by done. by rewrite IH.
Qed.

(** C10. In every view mode other than ['category'], ['priority']
    included, the projection is the single group under the key ["all"],
    without category record, that holds all the filtered items in their
    original order. *)
Theorem groupedItems_single_group (st : State.t) :
  State.viewMode st ≠ view_category →
  let filtered := filteredItems toLowerCase st in
  let groups := groupedItems toLowerCase st in
  groups = [(js "all", (None, filtered))]
  ∧ length groups = 1%nat
  ∧ concat (map group_items groups) = filtered
  ∧ selects (search_matches toLowerCase st) (State.items st) filtered.
Proof.
  intros Hmode filtered groups.
  assert (Hgroups : groups = [(js "all", (None, filtered))]).
  { subst groups. unfold groupedItems.
    by destruct (State.viewMode st). }
  rewrite Hgroups. split_and!; try done.
  - simpl. apply app_nil_r.
  - apply filteredItems_selects.
Qed.
End GroupStage.

Lemma groupedItems_by_category_witness :
  let milk := GroceryItem.mk (js "1") (js "Milk") (js "dairy") 1 (js "l")
                false medium None (Some 1) in
  let bread := GroceryItem.mk (js "2") (js "Bread") (js "bakery") 1 (js "pc")
                 false medium None (Some 2) in
  let eggs := GroceryItem.mk (js "3") (js "Eggs") (js "dairy") 12 (js "pc")
                false high None (Some 3) in
  let st := State.setItems (λ _, [bread; milk; eggs]) State.initial in
  map fst (groupedItems (map JsString.lowerAscii) st) = [js "dairy"; js "bakery"]
  ∧ concat (map group_items (groupedItems (map JsString.lowerAscii) st))
    ≡ₚ [bread; milk; eggs].
Proof.
  intros milk bread eggs st.
  destruct (groupedItems_by_category (map JsString.lowerAscii) st eq_refl)
    as (_ & Hkeys & _ & _ & _ & _ & Hpart).
  split.
  - rewrite Hkeys. reflexivity.
  - apply Hpart. unfold categories_known. apply (bool_decide_unpack _).
    by vm_compute.
Defined.

Lemma groupedItems_single_group_witness :
  let milk := GroceryItem.mk (js "1") (js "Milk") (js "dairy") 1 (js "l")
                false medium None (Some 1) in
  let st := State.setViewMode view_priority
              (State.setItems (λ _, [milk]) State.initial) in
  groupedItems (map JsString.lowerAscii) st = [(js "all", (None, [milk]))].
Proof.
  intros milk st.
  destruct (groupedItems_single_group (map JsString.lowerAscii) st) as [H _].
  - discriminate.
  - exact H.
Defined.

(** ** The aggregate stage *)

Lemma completedCount_le_totalCount (st : State.t) :
  (completedCount st ≤ totalCount st)%nat.
Proof.
  unfold completedCount, totalCount. rewrite filter_bool. apply length_filter.
Qed.

(** C7. [completedCount] is the number of completed items and
    [totalCount] the number of items; on a non-empty collection the
    percentage is the binary64 quotient of the two counts multiplied by
    100, and on the empty collection it is the number 0, which is not
    NaN. *)
Theorem completion_aggregate (st : State.t) :
  completedCount st = count_completed (State.items st)
  ∧ totalCount st = length (State.items st)
  ∧ ((0 < totalCount st)%nat →
     completionPercentage st
     = (number_of_length (completedCount st)
        / number_of_length (totalCount st) * 100)%float)
  ∧ (State.items st = [] →
     completionPercentage st = 0%float
     ∧ PrimFloat.is_nan (completionPercentage st) = false).
Proof.
  split_and!.
  - apply length_filter_completed.
  - done.
  - intros Hpos. unfold completionPercentage.
    by destruct (Nat.ltb_spec 0 (totalCount st)); [|lia].
  - intros Hnil. unfold completionPercentage, totalCount. rewrite Hnil.
    by split.
Qed.

Lemma completion_aggregate_witness :
  let item (completed : bool) :=
    GroceryItem.mk (js "1") (js "Milk") (js "dairy") 1 (js "l")
      completed medium None (Some 1) in
  let st := State.setItems (λ _, [item false; item true; item false; item false])
              State.initial in
  completionPercentage st = (1 / 4 * 100)%float
  ∧ completionPercentage State.initial = 0%float.
Proof.
  intros item st.
  destruct (completion_aggregate st) as (_ & _ & Hpos & _).
  destruct (completion_aggregate State.initial) as (_ & _ & _ & Hnil).
  split.
  - rewrite Hpos; [reflexivity | unfold st, totalCount; simpl; lia].
  - apply Hnil. reflexivity.
Defined.

(** One completed item out of three: the quotient is rounded to binary64
    before the multiplication. *)
Example completionPercentage_third :
  let item (completed : bool) :=
    GroceryItem.mk (js "1") (js "Milk") (js "dairy") 1 (js "l")
      completed medium None (Some 1) in
  completionPercentage
    (State.setItems (λ _, [item true; item false; item false]) State.initial)
  = 0x1.0aaaaaaaaaaaap+5%float.
Proof. reflexivity. Qed.

(** ** Reachable states *)

Lemma run_cons (e : Event) (events : list Event) (st : State.t) :
  run (e :: events) st = run events (handle e st).
Proof. reflexivity. Qed.

Lemma run_app (events1 events2 : list Event) (st : State.t) :
  run (events1 ++ events2) st = run events2 (run events1 st).
Proof. apply fold_left_app. Qed.

Lemma reachable_run (events : list Event) (st : State.t) :
  reachable st → offered_along events st → reachable (run events st).
Proof.
  revert st. induction events as [|e events IH]; intros st Hst Hoff; [done|].
  destruct Hoff as [He Hoff]. rewrite run_cons.
  apply IH; [by apply reachable_step | done].
Qed.

Lemma reachable_is_run (st : State.t) :
  reachable st →
  ∃ events, offered_along events State.initial ∧ st = run events State.initial.
Proof.
  induction 1 as [|st e _ (events & Hoff & ->) He].
  - by exists [].
  - exists (events ++ [e]). split; [|by rewrite run_app].
    clear -Hoff He. revert Hoff He. generalize State.initial.
    induction events as [|e' events IH]; intros st0 Hoff He; simpl in *.
    + done.
    + destruct Hoff as [? Hoff]. split; [done|]. by apply IH.
Qed.

(** ** Quantities *)

Lemma toggleComplete_quantities (id : jsstring) (st : State.t) :
  quantities_positive (State.items st) →
  quantities_positive (State.items (toggleComplete id st)).
Proof.
  unfold quantities_positive, toggleComplete. simpl. intros H.
  induction H as [|item l Hitem _ IH]; simpl; constructor; [|done].
  by destruct (JsString.eqb _ _).
Qed.

Lemma filter_quantities (f : GroceryItem.t → bool) (l : list GroceryItem.t) :
  quantities_positive l → quantities_positive (List.filter f l).
Proof. apply Forall_filter_bool. Qed.

Lemma deleteItem_quantities (id : jsstring) (st : State.t) :
  quantities_positive (State.items st) →
  quantities_positive (State.items (deleteItem id st)).
Proof. apply filter_quantities. Qed.

Lemma clearCompleted_quantities (st : State.t) :
  quantities_positive (State.items st) →
  quantities_positive (State.items (clearCompleted st)).
Proof. apply filter_quantities. Qed.

Lemma updateQuantity_quantities (id : jsstring) (n : Z) (st : State.t) :
  quantities_positive (State.items st) →
  quantities_positive (State.items (updateQuantity id n st)).
Proof.
  unfold quantities_positive, updateQuantity. intros H.
  destruct (Z.ltb_spec n 1); [done|]. simpl.
  induction H as [|item l Hitem _ IH]; simpl; constructor; [|done].
  by destruct (JsString.eqb _ _).
Qed.

(** [addItem] stores the form's quantity as it is: the collection stays
    within [quantity >= 1] exactly when the form does. *)
Lemma addItem_quantities (idClock dateClock : Z) (st : State.t) :
  quantities_positive (State.items st) →
  1 <= State.quantity st →
  quantities_positive (State.items (addItem idClock dateClock st)).
Proof.
  intros Hitems Hq. unfold addItem.
  destruct (JsString.truthy _); simpl; [|done].
  apply Forall_app. split; [done|]. by repeat constructor.
Qed.

(** The quantity field after the input's [onChange]: the parsed number
    when there is one other than 0, else 1.  A negative number is
    truthy, so it is stored. *)
Lemma onQuantityChange_quantity (value : jsstring) (st : State.t) :
  State.quantity (onQuantityChange value st)
  = match JsString.parseInt value with
    | Some n => if n =? 0 then 1 else n
    | None => 1
    end.
Proof. reflexivity. Qed.

Lemma onQuantityChange_positive (value : jsstring) (st : State.t) :
  1 <= State.quantity (onQuantityChange value st)
  ↔ ∀ n, JsString.parseInt value = Some n → 0 <= n.
Proof.
  rewrite onQuantityChange_quantity.
  destruct (JsString.parseInt value) as [n|].
  - destruct (Z.eqb_spec n 0) as [->|Hn].
    + split; [intros _ ? [= <-]; lia | lia].
    + split; [intros ? ? [= <-]; lia | intros H; specialize (H n eq_refl); lia].
  - split; [by intros _ ? | lia].
Qed.

(** C2 (the code departs from it). Typing [-5] in the quantity field and
    submitting the form stores an item of quantity -5: [onChange] keeps
    every parsed number other than 0 and NaN, and [addItem] does not
    repeat the [newQuantity < 1] test of [updateQuantity]. *)
Theorem negative_quantity_is_stored :
  let events :=
    [ClickAddFirstItem; ChangeNewItem (js "Milk"); ChangeQuantity (js "-5");
     Submit 1700000000000 1700000000000] in
  let st := run events State.initial in
  reachable st
  ∧ map GroceryItem.quantity (State.items st) = [-5]
  ∧ ¬ quantities_positive (State.items st).
Proof.
  intros events st. split_and!.
  - apply reachable_run; [constructor|].
    simpl. unfold DateTime.valid, DateTime.maxTime. split_and!; done || lia.
  - reflexivity.
  - unfold quantities_positive. intros H.
    assert (Hq : Forall (λ q, 1 <= q) (map GroceryItem.quantity (State.items st)))
      by (by apply Forall_fmap).
    change (Forall (λ q, 1 <= q) [-5]) in Hq.
    apply Forall_cons in Hq as [Hq _]. lia.
Qed.

(** Short of a negative quantity entry, every event keeps the form's
    quantity and all stored quantities at 1 or more. *)
Lemma handle_quantities (e : Event) (st : State.t) :
  quantity_entry_nonnegative e →
  1 <= State.quantity st ∧ quantities_positive (State.items st) →
  1 <= State.quantity (handle e st)
  ∧ quantities_positive (State.items (handle e st)).
Proof.
  intros He [Hq Hitems]. destruct e; cbn [handle]; try (split; assumption).
  - split; [by apply onQuantityChange_positive | done].
  - split; [|by apply addItem_quantities].
    unfold addItem. by destruct (JsString.truthy _).
  - split; [|by apply toggleComplete_quantities].
    done.
  - split; [|by apply updateQuantity_quantities].
    unfold onDecrement, updateQuantity. by destruct (_ <? 1).
  - split; [|by apply updateQuantity_quantities].
    unfold onIncrement, updateQuantity. by destruct (_ <? 1).
  - split; [done | by apply deleteItem_quantities].
  - split; [done | by apply clearCompleted_quantities].
Qed.

Lemma run_quantities (events : list Event) (st : State.t) :
  Forall quantity_entry_nonnegative events →
  1 <= State.quantity st ∧ quantities_positive (State.items st) →
  1 <= State.quantity (run events st)
  ∧ quantities_positive (State.items (run events st)).
Proof.
  intros Hev. revert st. induction Hev as [|e events He _ IH]; intros st Hst.
  - done.
  - rewrite run_cons. by apply IH, handle_quantities.
Qed.

(** ** Identifiers *)

Lemma js_inj (s1 s2 : String.string) : js s1 = js s2 → s1 = s2.
Proof.
  unfold JsString.js. intros H.
  rewrite <- (String.string_of_list_ascii_of_string s1),
          <- (String.string_of_list_ascii_of_string s2).
  f_equal. revert H.
  generalize (String.list_ascii_of_string s1) (String.list_ascii_of_string s2).
  intros l1. induction l1 as [|a l1 IH]; intros [|b l2]; simpl; try done.
  intros [= Hab Hl]. f_equal; [|by apply IH].
  by rewrite <- (Ascii.ascii_N_embedding a), <- (Ascii.ascii_N_embedding b), Hab.
Qed.

(** Distinct integers have distinct decimal renderings. *)
Lemma ofInteger_inj (m n : Z) : JsString.ofInteger m = JsString.ofInteger n → m = n.
Proof.
  unfold JsString.ofInteger. intros H%js_inj.
  apply (f_equal DecimalString.NilZero.int_of_string) in H.
  assert (Hnonnil : ∀ z, Z.to_int z ≠ Decimal.Pos Decimal.Nil
                         ∧ Z.to_int z ≠ Decimal.Neg Decimal.Nil).
  { intros [|p|p]; simpl; split; try done;
      intros [= Hp]; by apply DecimalPos.Unsigned.to_uint_nonnil in Hp. }
  rewrite !DecimalString.NilZero.isi in H by apply Hnonnil.
  injection H as H. by apply DecimalZ.to_int_inj.
Qed.

Lemma map_id_toggle (id : jsstring) (l : list GroceryItem.t) :
  map GroceryItem.id
    (map (λ item,
            if JsString.eqb (GroceryItem.id item) id
            then GroceryItem.with_completed (negb (GroceryItem.completed item)) item
            else item) l)
  = map GroceryItem.id l.
Proof.
  induction l as [|item l IH]; simpl; [done|]. rewrite IH.
  by destruct (JsString.eqb _ _).
Qed.

Lemma map_id_quantity (id : jsstring) (n : Z) (l : list GroceryItem.t) :
  map GroceryItem.id
    (map (λ item,
            if JsString.eqb (GroceryItem.id item) id
            then GroceryItem.with_quantity n item
            else item) l)
  = map GroceryItem.id l.
Proof.
  induction l as [|item l IH]; simpl; [done|]. rewrite IH.
  by destruct (JsString.eqb _ _).
Qed.

Lemma map_id_filter (f : GroceryItem.t → bool) (l : list GroceryItem.t) :
  map GroceryItem.id (List.filter f l) `sublist_of` map GroceryItem.id l.
Proof.
  induction l as [|item l IH]; simpl; [done|].
  destruct (f item); simpl; [by apply sublist_skip | by apply sublist_cons].
Qed.

(** The ids after an event: ids that were there, in order, followed by
    the rendering of the clock reading when the event created an item. *)
Lemma handle_ids (e : Event) (st : State.t) :
  ∃ kept,
    kept `sublist_of` map GroceryItem.id (State.items st)
    ∧ map GroceryItem.id (State.items (handle e st))
      = kept ++ map JsString.ofInteger (idClocks [e] st).
Proof.
  destruct e; simpl;
    try (exists (map GroceryItem.id (State.items st));
         split; [done | by rewrite app_nil_r]).
  - exists (map GroceryItem.id (State.items st)). split; [done|].
    unfold addItem. destruct (JsString.truthy _); simpl.
    + by rewrite map_app.
    + by rewrite app_nil_r.
  - exists (map GroceryItem.id (State.items st)). split; [done|].
    by rewrite map_id_toggle, app_nil_r.
  - exists (map GroceryItem.id (State.items st)). split; [done|].
    unfold onDecrement, updateQuantity. destruct (_ <? 1); simpl.
    + by rewrite app_nil_r.
    + by rewrite map_id_quantity, app_nil_r.
  - exists (map GroceryItem.id (State.items st)). split; [done|].
    unfold onIncrement, updateQuantity. destruct (_ <? 1); simpl.
    + by rewrite app_nil_r.
    + by rewrite map_id_quantity, app_nil_r.
  - eexists. split; [apply map_id_filter | by rewrite app_nil_r].
  - eexists. split; [apply map_id_filter | by rewrite app_nil_r].
Qed.

Lemma addItemFrom_items (closure : State.t) (idClock dateClock : Z) (st : State.t) :
  JsString.trim (State.newItem closure) ≠ [] →
  State.items (addItemFrom closure idClock dateClock st)
  = State.items st
    ++ [GroceryItem.mk (JsString.ofInteger idClock)
          (JsString.trim (State.newItem closure))
          (State.selectedCategory closure) (State.quantity closure)
          (State.unit closure) false (State.selectedPriority closure)
          None (Some dateClock)].
Proof.
  intros H%truthy_true. unfold addItemFrom. by rewrite H.
Qed.

Lemma addItemFrom_rejects (closure : State.t) (idClock dateClock : Z) (st : State.t) :
  JsString.trim (State.newItem closure) = [] →
  addItemFrom closure idClock dateClock st = st.
Proof. intros H. unfold addItemFrom. by rewrite H. Qed.

Lemma addItem_addItemFrom (idClock dateClock : Z) (st : State.t) :
  addItem idClock dateClock st = addItemFrom st idClock dateClock st.
Proof. reflexivity. Qed.

Lemma perform_all_cons (op : Operation) (ops : list Operation) (st : State.t) :
  perform_all (op :: ops) st = perform_all ops (perform op st).
Proof. reflexivity. Qed.

Lemma perform_all_run (events : list Event) (st : State.t) :
  perform_all (map Dispatch events) st = run events st.
Proof.
  revert st. induction events as [|e events IH]; intros st; [done|].
  simpl. apply IH.
Qed.

(** The ids after an operation: those that were there followed by the
    rendering of the clock reading, when the operation creates an item;
    otherwise some of those that were there, in their order. *)
Lemma perform_ids (op : Operation) (st : State.t) :
  match idClock_of op st with
  | Some clock =>
      map GroceryItem.id (State.items (perform op st))
      = map GroceryItem.id (State.items st) ++ [JsString.ofInteger clock]
  | None =>
      map GroceryItem.id (State.items (perform op st))
      `sublist_of` map GroceryItem.id (State.items st)
  end.
Proof.
  destruct op as [e|closure idClock dateClock]; simpl.
  - destruct e; simpl; try done.
    + unfold addItem. destruct (JsString.truthy _); simpl; [|done].
      by rewrite map_app.
    + by rewrite map_id_toggle.
    + unfold onDecrement, updateQuantity. destruct (_ <? 1); simpl; [done|].
      by rewrite map_id_quantity.
    + unfold onIncrement, updateQuantity. destruct (_ <? 1); simpl; [done|].
      by rewrite map_id_quantity.
    + apply map_id_filter.
    + apply map_id_filter.
  - unfold addItemFrom. destruct (JsString.truthy _); simpl; [|done].
    by rewrite map_app.
Qed.

Lemma NoDup_snoc (ids : list jsstring) (i : jsstring) :
  NoDup (ids ++ [i]) ↔ NoDup ids ∧ i ∉ ids.
Proof.
  rewrite NoDup_app. split.
  - intros (Hnd & Hdisj & _). split; [done|].
    intros Hi. apply (Hdisj i Hi), list_elem_of_here.
  - intros [Hnd Hi]. split_and!; [done| |apply NoDup_singleton].
    intros j Hj ->%list_elem_of_singleton. done.
Qed.

(** C9 as stated fails: two submissions that read the same millisecond
    from [Date.now()] leave two items with the same id in a reachable
    collection. *)
Lemma ids_not_always_unique :
  ¬ (∀ st, reachable st → ids_unique (State.items st)).
Proof.
  intros H.
  set (events :=
         [ClickAddFirstItem; ChangeNewItem (js "Milk");
          Submit 1700000000000 1700000000000;
          ClickToggleForm; ChangeNewItem (js "Bread");
          Submit 1700000000000 1700000000000]).
  assert (Hreach : reachable (run events State.initial)).
  { apply reachable_run; [constructor|].
    simpl. unfold DateTime.valid, DateTime.maxTime. split_and!; done || lia. }
  apply H in Hreach. unfold ids_unique in Hreach.
  change (NoDup [js "1700000000000"; js "1700000000000"]) in Hreach.
  apply NoDup_cons in Hreach as [Hnotin _].
  apply Hnotin, list_elem_of_here.
Qed.

(** C9, amended. Start from any collection whose ids are pairwise
    distinct, the empty one of the first render or one loaded from
    storage, and perform any sequence of operations: events of the page
    and submits through the closing add form.  If every add that creates
    an item reads from [Date.now()] a value whose decimal rendering is not
    the id of an item then in the collection, the ids of the collection
    are pairwise distinct afterwards.  The condition is the least one: an
    add that creates an item leaves the ids pairwise distinct exactly when
    the rendering of its clock reading was not among them. *)
Theorem ids_unique_while_clocks_fresh (ops : list Operation) (st : State.t) :
  ids_unique (State.items st) →
  (clocks_fresh_along ops st →
   ids_unique (State.items (perform_all ops st)))
  ∧ (∀ op clock,
       idClock_of op st = Some clock →
       ids_unique (State.items (perform op st)) ↔
       JsString.ofInteger clock ∉ map GroceryItem.id (State.items st)).
Proof.
  unfold ids_unique. intros Hnd. split.
  - revert st Hnd. induction ops as [|op ops IH]; intros st Hnd Hfresh; [done|].
    destruct Hfresh as [Hop Hfresh]. rewrite perform_all_cons.
    apply IH; [|done].
    pose proof (perform_ids op st) as Hids.
    destruct (idClock_of op st) as [clock|].
    + rewrite Hids. apply NoDup_snoc. split; [done|]. by apply Hop.
    + by eapply sublist_NoDup.
  - intros op clock Hclock. pose proof (perform_ids op st) as Hids.
    rewrite Hclock in Hids. rewrite Hids, NoDup_snoc. split.
    + by intros [_ ?].
    + done.
Qed.

Lemma ids_unique_while_clocks_fresh_witness :
  let stored := GroceryItem.mk (js "5") (js "Eggs") (js "dairy") 12 (js "pc")
                  true low None (Some 5) in
  let loaded := State.setItems (λ _, [stored]) State.initial in
  let typed := run [ClickAddFirstItem; ChangeNewItem (js "Milk")] loaded in
  ids_unique
    (State.items
       (perform_all
          [Dispatch (Submit 1000 1000);
           SubmitClosing typed 1001 1001;
           Dispatch (ClickDelete (js "1000"));
           Dispatch ClickToggleForm;
           Dispatch (ChangeNewItem (js "Bread"));
           Dispatch (Submit 1000 1002)]
          typed)).
Proof.
  intros stored loaded typed.
  apply ids_unique_while_clocks_fresh.
  - apply (bool_decide_unpack _). by vm_compute.
  - simpl. split_and!; try done; intros clock [= <-];
      apply (bool_decide_unpack _); by vm_compute.
Defined.

(** ** Calendar arithmetic *)

Lemma DayFromYear_step (y : Z) :
  DateTime.DayFromYear (y + 1) - DateTime.DayFromYear y
  = 365 + DateTime.InLeapYear y.
Proof.
  unfold DateTime.DayFromYear, DateTime.InLeapYear.
  destruct (Z.eqb_spec (y mod 4) 0), (Z.eqb_spec (y mod 100) 0),
           (Z.eqb_spec (y mod 400) 0); simpl;
    Z.div_mod_to_equations; lia.
Qed.

Lemma InLeapYear_range (y : Z) : 0 <= DateTime.InLeapYear y <= 1.
Proof. unfold DateTime.InLeapYear. destruct (_ && _); lia. Qed.

(** [YearFromDay d] is the year whose days include [d]: the largest [y]
    with [DayFromYear y <= d]. *)
Lemma YearFromDay_spec (d : Z) :
  DateTime.DayFromYear (DateTime.YearFromDay d) <= d
  < DateTime.DayFromYear (DateTime.YearFromDay d + 1).
Proof.
  unfold DateTime.YearFromDay.
  set (e := 1970 + d * 400 / 146097).
  assert (He : 146097 * (e - 1970) <= d * 400 < 146097 * (e - 1970) + 146097).
  { subst e. Z.div_mod_to_equations. lia. }
  clearbody e.
  destruct (Z.leb_spec (DateTime.DayFromYear (e + 1)) d) as [H1|H1];
    [|destruct (Z.leb_spec (DateTime.DayFromYear e) d) as [H2|H2]].
  - split; [done|]. unfold DateTime.DayFromYear in *.
    Z.div_mod_to_equations. lia.
  - done.
  - split; [|by replace (e - 1 + 1) with e by lia].
    unfold DateTime.DayFromYear in *. Z.div_mod_to_equations. lia.
Qed.

Lemma YearFromDay_largest (d y : Z) :
  DateTime.DayFromYear y <= d → y <= DateTime.YearFromDay d.
Proof.
  intros Hy. destruct (YearFromDay_spec d) as [_ Hd].
  destruct (Z.le_gt_cases y (DateTime.YearFromDay d)) as [|Hgt]; [done|].
  exfalso. revert Hy Hd Hgt. generalize (DateTime.YearFromDay d).
  intros y0 Hy Hd Hgt.
  unfold DateTime.DayFromYear in *. Z.div_mod_to_equations. lia.
Qed.

Lemma DayWithinYear_range (tv : Z) :
  0 <= DateTime.DayWithinYear tv
  < 365 + DateTime.InLeapYear (DateTime.YearFromTime tv).
Proof.
  unfold DateTime.DayWithinYear, DateTime.YearFromTime.
  pose proof (YearFromDay_spec (DateTime.Day tv)) as H.
  pose proof (DayFromYear_step (DateTime.YearFromDay (DateTime.Day tv))).
  lia.
Qed.

Lemma MonthFromTime_range (tv : Z) :
  let leap := DateTime.InLeapYear (DateTime.YearFromTime tv) in
  let m := DateTime.MonthFromTime tv in
  0 <= m <= 11
  ∧ DateTime.monthStart leap m <= DateTime.DayWithinYear tv
    < DateTime.monthStart leap (m + 1).
Proof.
  intros leap m. subst m. unfold DateTime.MonthFromTime. fold leap.
  pose proof (DayWithinYear_range tv) as Hd. fold leap in Hd.
  pose proof (InLeapYear_range (DateTime.YearFromTime tv)) as Hl. fold leap in Hl.
  clearbody leap. revert Hd. generalize (DateTime.DayWithinYear tv). intros d Hd.
  unfold DateTime.monthStart. simpl.
  repeat (match goal with
          | |- context [?a <? ?b] => destruct (Z.ltb_spec a b)
          end; simpl; try lia).
Qed.

Lemma DateFromTime_range (tv : Z) :
  1 <= DateTime.DateFromTime tv
  <= DateTime.DaysInMonth (DateTime.YearFromTime tv) (DateTime.MonthFromTime tv).
Proof.
  pose proof (MonthFromTime_range tv) as [_ H].
  unfold DateTime.DateFromTime, DateTime.DaysInMonth. lia.
Qed.

Lemma DaysInMonth_le_31 (y m : Z) : 0 <= m <= 11 → DateTime.DaysInMonth y m <= 31.
Proof.
  intros Hm. pose proof (InLeapYear_range y).
  unfold DateTime.DaysInMonth. generalize dependent (DateTime.InLeapYear y).
  intros leap Hl.
  assert (m = 0 ∨ m = 1 ∨ m = 2 ∨ m = 3 ∨ m = 4 ∨ m = 5 ∨ m = 6 ∨ m = 7
          ∨ m = 8 ∨ m = 9 ∨ m = 10 ∨ m = 11) as Hcases by lia.
  repeat destruct Hcases as [-> | Hcases]; try subst m;
    unfold DateTime.monthStart; simpl; lia.
Qed.

Lemma MakeDay_of_time (tv : Z) :
  DateTime.MakeDay (DateTime.YearFromTime tv) (DateTime.MonthFromTime tv)
    (DateTime.DateFromTime tv)
  = DateTime.Day tv.
Proof.
  pose proof (MonthFromTime_range tv) as [Hm _].
  unfold DateTime.MakeDay.
  rewrite (Z.div_small _ 12), (Z.mod_small _ 12), Z.add_0_r by lia.
  unfold DateTime.DateFromTime, DateTime.DayWithinYear. lia.
Qed.

Lemma MakeTime_of_time (tv : Z) :
  DateTime.MakeTime (DateTime.HourFromTime tv) (DateTime.MinFromTime tv)
    (DateTime.SecFromTime tv) (DateTime.msFromTime tv)
  = DateTime.TimeWithinDay tv.
Proof.
  unfold DateTime.MakeTime, DateTime.HourFromTime, DateTime.MinFromTime,
    DateTime.SecFromTime, DateTime.msFromTime, DateTime.TimeWithinDay,
    DateTime.msPerDay.
  Z.div_mod_to_equations. lia.
Qed.

Lemma MakeDate_of_time (tv : Z) :
  DateTime.MakeDate (DateTime.Day tv) (DateTime.TimeWithinDay tv) = tv.
Proof.
  unfold DateTime.MakeDate, DateTime.Day, DateTime.TimeWithinDay,
    DateTime.msPerDay.
  Z.div_mod_to_equations. lia.
Qed.

Lemma time_fields_range (tv : Z) :
  0 <= DateTime.HourFromTime tv <= 23
  ∧ 0 <= DateTime.MinFromTime tv <= 59
  ∧ 0 <= DateTime.SecFromTime tv <= 59
  ∧ 0 <= DateTime.msFromTime tv <= 999.
Proof.
  unfold DateTime.HourFromTime, DateTime.MinFromTime, DateTime.SecFromTime,
    DateTime.msFromTime.
  split_and!; Z.div_mod_to_equations; lia.
Qed.

(** The years of the valid time values: April -271821 to September 275760. *)
Lemma YearFromTime_valid (tv : Z) :
  DateTime.valid (Some tv) → -271821 <= DateTime.YearFromTime tv <= 275760.
Proof.
  unfold DateTime.valid, DateTime.maxTime, DateTime.YearFromTime. intros Htv.
  assert (Hd : -100000000 <= DateTime.Day tv <= 100000000).
  { unfold DateTime.Day, DateTime.msPerDay. Z.div_mod_to_equations. lia. }
  pose proof (YearFromDay_spec (DateTime.Day tv)) as Hy.
  revert Hd Hy. generalize (DateTime.Day tv) (DateTime.YearFromDay (DateTime.Day tv)).
  intros d y Hd Hy. unfold DateTime.DayFromYear in Hy.
  Z.div_mod_to_equations. lia.
Qed.

(** ** The date-time string format *)

Lemma readDigits_digits (w k : nat) (acc n : Z) (rest : jsstring) :
  0 <= n < 10 ^ Z.of_nat w →
  DateTime.readDigits (w + k) acc (DateTime.digits w n ++ rest)
  = DateTime.readDigits k (acc * 10 ^ Z.of_nat w + n) rest.
Proof.
  revert k n rest. induction w as [|w IH]; intros k n rest Hn.
  - simpl in *. f_equal. lia.
  - assert (Hpow : 10 ^ Z.of_nat (S w) = 10 * 10 ^ Z.of_nat w)
      by (rewrite Nat2Z.inj_succ, Z.pow_succ_r; lia).
    rewrite Hpow in *.
    cbn [DateTime.digits]. rewrite <- app_assoc.
    replace (S w + k)%nat with (w + S k)%nat by lia.
    rewrite IH by (Z.div_mod_to_equations; lia).
    cbn [DateTime.readDigits app].
    set (c := Z.to_N (48 + n mod 10)).
    assert (Hc : (48 <= c <= 57)%N ∧ Z.of_N c = 48 + n mod 10).
    { subst c. Z.div_mod_to_equations. lia. }
    destruct Hc as [[Hlo Hhi] Hval].
    apply N.leb_le in Hlo, Hhi. rewrite Hlo, Hhi. simpl.
    f_equal. rewrite Hval. Z.div_mod_to_equations. lia.
Qed.

Lemma readDigits_exact (w : nat) (n : Z) (rest : jsstring) :
  0 <= n < 10 ^ Z.of_nat w →
  DateTime.readDigits w 0 (DateTime.digits w n ++ rest) = Some (n, rest).
Proof.
  intros Hn. rewrite <- (Nat.add_0_r w) at 1.
  rewrite readDigits_digits by done. reflexivity.
Qed.

Lemma digits_head (w : nat) (n : Z) (rest : jsstring) :
  ∃ c tail, DateTime.digits (S w) n ++ rest = c :: tail ∧ (48 <= c <= 57)%N.
Proof.
  revert n rest. induction w as [|w IH]; intros n rest.
  - exists (Z.to_N (48 + n mod 10)), rest. split; [done|].
    Z.div_mod_to_equations. lia.
  - change (DateTime.digits (S (S w)) n)
      with (DateTime.digits (S w) (n / 10) ++ [Z.to_N (48 + n mod 10)]).
    rewrite <- app_assoc. apply IH.
Qed.

Lemma readYear_year (y : Z) (rest : jsstring) :
  -999999 <= y <= 999999 →
  DateTime.readYear
    ((if (0 <=? y) && (y <=? 9999) then DateTime.digits 4 y
      else (if 0 <=? y then js "+" else js "-") ++ DateTime.digits 6 (Z.abs y))
     ++ rest)
  = Some (y, rest).
Proof.
  intros Hy.
  destruct (Z.leb_spec 0 y) as [Hpos|Hneg]; simpl andb.
  - destruct (Z.leb_spec y 9999) as [Hsmall|Hbig].
    + destruct (digits_head 3 y rest) as (c & tail & Heq & Hc).
      unfold DateTime.readYear. rewrite Heq.
      destruct (N.eqb_spec c 43); [lia|]. destruct (N.eqb_spec c 45); [lia|].
      rewrite <- Heq. apply readDigits_exact. simpl. lia.
    + change (js "+") with [43%N]. cbn [app DateTime.readYear N.eqb Pos.eqb].
      rewrite Z.abs_eq by lia. apply readDigits_exact. simpl. lia.
  - change (js "-") with [45%N]. cbn [app DateTime.readYear N.eqb Pos.eqb].
    rewrite readDigits_exact by (simpl; lia). simpl.
    destruct (Z.eqb_spec (Z.abs y) 0); [lia|]. do 2 f_equal. lia.
Qed.

Lemma expect_cons (c : N) (rest : jsstring) :
  DateTime.expect c (c :: rest) = Some rest.
Proof. simpl. by rewrite N.eqb_refl. Qed.

(** [toISOString] writes the complete UTC form of the time value it is
    given, and reading that form gives the time value back. *)
Lemma parseISO_toISOString (tv : Z) :
  DateTime.valid (Some tv) →
  DateTime.parseISO (DateTime.toISOString tv) = Some tv.
Proof.
  intros Hvalid.
  pose proof (YearFromTime_valid tv Hvalid) as Hyear.
  pose proof (MonthFromTime_range tv) as [Hmonth _].
  pose proof (DateFromTime_range tv) as Hdate.
  pose proof (DaysInMonth_le_31 (DateTime.YearFromTime tv) _ Hmonth) as Hdim.
  pose proof (time_fields_range tv) as (Hh & Hmi & Hs & Hms).
  unfold DateTime.toISOString, DateTime.parseISO.
  change (js "-") with [45%N]. change (js "T") with [84%N].
  change (js ":") with [58%N]. change (js ".") with [46%N].
  change (js "Z") with [90%N].
  rewrite readYear_year by lia. cbn [mbind option_bind app].
  rewrite expect_cons. cbn [mbind option_bind].
  rewrite readDigits_exact by (simpl; lia). cbn [mbind option_bind app].
  rewrite expect_cons. cbn [mbind option_bind].
  rewrite readDigits_exact by (simpl; lia). cbn [mbind option_bind app].
  rewrite expect_cons. cbn [mbind option_bind].
  rewrite readDigits_exact by (simpl; lia). cbn [mbind option_bind app].
  rewrite expect_cons. cbn [mbind option_bind].
  rewrite readDigits_exact by (simpl; lia). cbn [mbind option_bind app].
  rewrite expect_cons. cbn [mbind option_bind].
  rewrite readDigits_exact by (simpl; lia). cbn [mbind option_bind app].
  rewrite expect_cons. cbn [mbind option_bind].
  rewrite <- (app_nil_r (DateTime.digits 3 _)), <- app_assoc.
  rewrite readDigits_exact by (simpl; lia). cbn [mbind option_bind app].
  rewrite expect_cons. cbn [mbind option_bind].
  replace (DateTime.MonthFromTime tv + 1 - 1) with (DateTime.MonthFromTime tv) by lia.
  rewrite bool_decide_eq_true_2 by done.
  repeat match goal with
         | |- context [?a <=? ?b] =>
             destruct (Z.leb_spec a b); [|lia]
         end.
  simpl. f_equal.
  rewrite MakeDay_of_time, MakeTime_of_time. apply MakeDate_of_time.
Qed.

Lemma TimeClip_valid (tv : Z) :
  DateTime.valid (Some tv) → DateTime.TimeClip tv = Some tv.
Proof.
  unfold DateTime.valid, DateTime.TimeClip. intros H.
  destruct (Z.leb_spec (Z.abs tv) DateTime.maxTime); [done|lia].
Qed.

(** ** Saving and loading *)

Section RoundTrip.
Variable hostDateParse : jsstring → option Z.

Lemma new_Date_toJSON (d : Date.t) :
  DateTime.valid d → new_Date hostDateParse (Some (Date_toJSON d)) = d.
Proof.
  destruct d as [tv|]; [|done]. intros Hvalid. simpl.
  unfold DateTime.parse. rewrite parseISO_toISOString by done.
  simpl. by apply TimeClip_valid.
Qed.

(** An invalid date is written as [null], which [new Date] reads as the
    epoch. *)
Lemma new_Date_toJSON_invalid :
  new_Date hostDateParse (Some (Date_toJSON None)) = Some 0.
Proof. reflexivity. Qed.

Lemma priority_of_to_string (p : Priority) :
  priority_of_string (priority_to_string p) = Some p.
Proof. by destruct p. Qed.

Lemma obj_get_here {V} (k : jsstring) (v : V) (rest : list (jsstring * V)) :
  obj_get k ((k, v) :: rest) = Some v.
Proof. simpl. by rewrite eqb_refl. Qed.

Lemma obj_get_skip {V} (k k' : jsstring) (v : V) (rest : list (jsstring * V)) :
  k' ≠ k → obj_get k ((k', v) :: rest) = obj_get k rest.
Proof. intros Hne%eqb_false. simpl. by rewrite Hne. Qed.

Lemma revive_props (id name category : jsstring) (quantity : Z) (unit : jsstring)
    (completed : bool) (priority : Priority) (price : option Z) (date : json) :
  revive hostDateParse
    ([ (js "id", JStr id); (js "name", JStr name);
       (js "category", JStr category); (js "quantity", JNum quantity);
       (js "unit", JStr unit); (js "completed", JBool completed);
       (js "priority", JStr (priority_to_string priority)) ]
     ++ match price with
        | Some p => [(js "estimatedPrice", JNum p)]
        | None => []
        end
     ++ [ (js "addedAt", date) ])
  = Some (GroceryItem.mk id name category quantity unit completed priority
            price (new_Date hostDateParse (Some date))).
Proof.
  unfold revive.
  destruct price as [p|]; cbn [app];
    repeat (rewrite obj_get_here
            || rewrite obj_get_skip by (intros Hk%js_inj; discriminate Hk));
    cbn [obj_get]; rewrite priority_of_to_string; reflexivity.
Qed.

Lemma reviveItem_item_to_json (item : GroceryItem.t) :
  DateTime.valid (GroceryItem.addedAt item) →
  reviveItem hostDateParse (item_to_json item) = Ok item.
Proof.
  intros Hvalid. destruct item as [id name cat q unit completed prio price date].
  unfold item_to_json, reviveItem. cbn [GroceryItem.id GroceryItem.name
    GroceryItem.category GroceryItem.quantity GroceryItem.unit
    GroceryItem.completed GroceryItem.priority GroceryItem.estimatedPrice
    GroceryItem.addedAt] in *.
  rewrite revive_props. by rewrite new_Date_toJSON.
Qed.

Lemma reviveAll_items (items : list GroceryItem.t) :
  dates_valid items →
  reviveAll hostDateParse (map item_to_json items) = Ok items.
Proof.
  induction 1 as [|item items Hitem _ IH]; [done|].
  cbn [map reviveAll]. by rewrite reviveItem_item_to_json, IH.
Qed.

Lemma loadEffect_items (sto : Storage.t) (st : State.t) (items : list GroceryItem.t) :
  Storage.modernGroceryList sto = Some (JsonText (JArr (map item_to_json items))) →
  dates_valid items →
  ∃ st', loadEffect hostDateParse sto st = Ok st' ∧ State.items st' = items.
Proof.
  intros Hsto Hvalid. unfold loadEffect. rewrite Hsto.
  cbn [parsedItems]. rewrite reviveAll_items by done.
  destruct (Storage.groceryListTheme sto) as [theme|]; [|by eexists].
  destruct (JsString.truthy theme); by eexists.
Qed.
End RoundTrip.

Lemma reachable_dates_valid (st : State.t) :
  reachable st → dates_valid (State.items st).
Proof.
  unfold dates_valid. induction 1 as [|st e _ IH He]; [constructor|].
  destruct e; cbn [handle]; try exact IH.
  - unfold addItem. destruct (JsString.truthy _); [|exact IH].
    simpl. apply Forall_app. split; [exact IH|].
    constructor; [|constructor]. apply He.
  - unfold toggleComplete. simpl. apply Forall_fmap.
    eapply Forall_impl; [exact IH|]. intros item Hitem. simpl.
    by destruct (JsString.eqb _ _).
  - unfold onDecrement, updateQuantity. destruct (_ <? 1); [exact IH|].
    simpl. apply Forall_fmap.
    eapply Forall_impl; [exact IH|]. intros item' Hitem. simpl.
    by destruct (JsString.eqb _ _).
  - unfold onIncrement, updateQuantity. destruct (_ <? 1); [exact IH|].
    simpl. apply Forall_fmap.
    eapply Forall_impl; [exact IH|]. intros item' Hitem. simpl.
    by destruct (JsString.eqb _ _).
  - by apply Forall_filter_bool.
  - by apply Forall_filter_bool.
Qed.

Lemma item_to_json_addedAt (item : GroceryItem.t) (tv : Z) :
  GroceryItem.addedAt item = Some tv →
  ∃ props, item_to_json item = JObj props
           ∧ obj_get (js "addedAt") props = Some (JStr (DateTime.toISOString tv)).
Proof.
  intros Hdate. eexists. split; [reflexivity|]. rewrite Hdate.
  destruct (GroceryItem.estimatedPrice item); cbn [app];
    repeat (rewrite obj_get_here
            || rewrite obj_get_skip by (intros Hk%js_inj; discriminate Hk));
    reflexivity.
Qed.

(** C8. The save effect stores the collection as an array of records, the
    [addedAt] of each written as its ISO string; the load effect, run on
    that entry, ends with exactly the saved collection in [items]: the
    same items in the same order, every field and every time value equal
    to the original.  This holds for every collection whose [addedAt]
    values are valid dates, which is every collection the page reaches,
    and whatever the host makes of date strings in other formats. *)
Theorem save_load_roundtrip (hostDateParse : jsstring → option Z)
    (st st0 : State.t) (sto : Storage.t) :
  dates_valid (State.items st) →
  let saved := saveItems st sto in
  Storage.modernGroceryList saved
  = Some (JsonText (JArr (map item_to_json (State.items st))))
  ∧ Forall
      (λ item,
         ∃ tv props,
           GroceryItem.addedAt item = Some tv
           ∧ item_to_json item = JObj props
           ∧ obj_get (js "addedAt") props = Some (JStr (DateTime.toISOString tv)))
      (State.items st)
  ∧ parsedItems hostDateParse (JsonText (JArr (map item_to_json (State.items st))))
    = Ok (State.items st)
  ∧ ∃ st', loadEffect hostDateParse saved st0 = Ok st'
           ∧ State.items st' = State.items st.
Proof.
  intros Hvalid saved. split_and!.
  - done.
  - eapply Forall_impl; [exact Hvalid|]. intros item Hitem. simpl in Hitem.
    destruct (GroceryItem.addedAt item) as [tv|] eqn:Hdate; [|done].
    destruct (item_to_json_addedAt item tv Hdate) as (props & Hjson & Hget).
    by exists tv, props.
  - by apply reviveAll_items.
  - by apply loadEffect_items.
Qed.

Lemma save_load_roundtrip_witness :
  let milk := GroceryItem.mk (js "1700000000000") (js "Milk") (js "dairy") 2
                (js "l") true high None (Some 1700000000123) in
  let st := State.setItems (λ _, [milk]) State.initial in
  parsedItems (λ _, None) (JsonText (JArr (map item_to_json (State.items st))))
  = Ok [milk].
Proof.
  intros milk st.
  destruct (save_load_roundtrip (λ _, None) st State.initial
              (Storage.mk None None)) as (_ & _ & H & _).
  - repeat constructor; simpl; unfold DateTime.maxTime; lia.
  - exact H.
Defined.

(** Every collection the page reaches comes back from storage as it was
    saved. *)
Lemma reachable_save_load (hostDateParse : jsstring → option Z)
    (st : State.t) (sto : Storage.t) :
  reachable st →
  ∃ st', loadEffect hostDateParse (saveItems st sto) State.initial = Ok st'
         ∧ State.items st' = State.items st.
Proof.
  intros Hreach. apply loadEffect_items; [done|].
  by apply reachable_dates_valid.
Qed.

(** With nothing stored under the items key the load effect leaves the
    collection of the first render, which is empty. *)
Lemma loadEffect_nothing_stored (hostDateParse : jsstring → option Z)
    (theme : option jsstring) :
  ∃ st', loadEffect hostDateParse (Storage.mk None theme) State.initial = Ok st'
         ∧ State.items st' = [].
Proof.
  unfold loadEffect. simpl. destruct theme as [theme|]; [|by eexists].
  destruct (JsString.truthy theme); by eexists.
Qed.

(** ** Invariants of the reachable states *)

(** The form's category and the category of every stored item come from
    the [categories] table: the [<select>] offers nothing else. *)
Lemma reachable_categories_known (st : State.t) :
  reachable st →
  State.selectedCategory st ∈ map Category.id categories
  ∧ categories_known (State.items st).
Proof.
  unfold categories_known.
  induction 1 as [|st e _ [IHsel IH] He].
  - split; [apply list_elem_of_here | constructor].
  - destruct e; cbn [handle]; try (split; assumption).
    + unfold addItem. destruct (JsString.truthy _); [|by split].
      split; [exact IHsel|]. simpl. apply Forall_app. split; [exact IH|].
      constructor; [exact IHsel | constructor].
    + split; [exact IHsel|]. unfold toggleComplete. simpl. apply Forall_fmap.
      eapply Forall_impl; [exact IH|]. intros item Hitem. simpl.
      by destruct (JsString.eqb _ _).
    + unfold onDecrement, updateQuantity. destruct (_ <? 1); [by split|].
      split; [exact IHsel|]. simpl. apply Forall_fmap.
      eapply Forall_impl; [exact IH|]. intros item' Hitem. simpl.
      by destruct (JsString.eqb _ _).
    + unfold onIncrement, updateQuantity. destruct (_ <? 1); [by split|].
      split; [exact IHsel|]. simpl. apply Forall_fmap.
      eapply Forall_impl; [exact IH|]. intros item' Hitem. simpl.
      by destruct (JsString.eqb _ _).
    + split; [exact IHsel | by apply Forall_filter_bool].
    + split; [exact IHsel | by apply Forall_filter_bool].
Qed.

(** X14. The page never sets the ['priority'] view mode that the type of
    [viewMode] admits: its two buttons are ['category'] and ['all'], so
    every reachable state is in one of these two modes. *)
Lemma reachable_viewMode (st : State.t) :
  reachable st → State.viewMode st ≠ view_priority.
Proof.
  induction 1 as [|st e _ IH He]; [done|].
  destruct e; cbn [handle]; try exact IH.
  - simpl. by destruct He as [-> | ->].
  - unfold addItem. by destruct (JsString.truthy _).
  - unfold onDecrement, updateQuantity. by destruct (_ <? 1).
  - unfold onIncrement, updateQuantity. by destruct (_ <? 1).
Qed.

(** In a reachable state the groups of the ['category'] view hold every
    filtered item, each in exactly one group. *)
Lemma reachable_groups_cover (toLowerCase : jsstring → jsstring) (st : State.t) :
  reachable st →
  State.viewMode st = view_category →
  concat (map group_items (groupedItems toLowerCase st))
  ≡ₚ filteredItems toLowerCase st.
Proof.
  intros [_ Hknown]%reachable_categories_known Hmode.
  rewrite groupedItems_category by done.
  rewrite category_groups_concat by apply categories_NoDup.
  assert (Hall : Forall (λ item, GroceryItem.category item
                                 ∈ map Category.id categories)
                   (filteredItems toLowerCase st)).
  { apply Forall_forall. intros item Hitem.
    apply (proj1 (Forall_forall _ _) Hknown).
    eapply elem_of_sublist; [exact Hitem | apply filteredItems_sublist]. }
  induction Hall as [|item l Hitem _ IH]; [done|].
  rewrite filter_cons, decide_True by done. by rewrite IH.
Qed.

(** X2. [toggleComplete] is its own inverse: toggling the same id twice
    gives back the state, whether or not an item has that id and however
    many items share it. *)
Lemma toggleComplete_involutive (id : jsstring) (st : State.t) :
  toggleComplete id (toggleComplete id st) = st.
Proof.
  destruct st as [items ? ? ? ? ? ? ? ? ? ?].
  unfold toggleComplete, State.setItems. simpl. f_equal.
  induction items as [|item items IH]; simpl; [done|]. rewrite IH. f_equal.
  destruct (JsString.eqb (GroceryItem.id item) id) eqn:Hid.
  - simpl. rewrite Hid. destruct item. simpl.
    by rewrite negb_involutive.
  - by rewrite Hid.
Qed.

(** * Further properties of the component *)

(** ** Toggling and deleting *)

Lemma map_id_fixed (f : GroceryItem.t → GroceryItem.t) (l : list GroceryItem.t) :
  (∀ item, item ∈ l → f item = item) → map f l = l.
Proof.
  induction l as [|item l IH]; intros Hf; simpl; [done|].
  rewrite Hf by apply list_elem_of_here.
  f_equal. apply IH. intros item' Hin. apply Hf. by right.
Qed.

Lemma filter_fixed {A} (f : A → bool) (l : list A) :
  (∀ x, x ∈ l → f x = true) ↔ List.filter f l = l.
Proof.
  induction l as [|x l IH]; simpl.
  - split; [done | by intros _ ? ?%elem_of_nil].
  - destruct (f x) eqn:Hx.
    + split.
      * intros Hf. f_equal. apply IH. intros y Hy. apply Hf. by right.
      * intros [= Hl] y [->|Hy]%elem_of_cons; [done|]. by apply IH.
    + split.
      * intros Hf. specialize (Hf x (list_elem_of_here _ _)). congruence.
      * intros Hl. exfalso.
        assert (Hlen : (length (List.filter f l) ≤ length l)%nat)
          by (rewrite filter_bool; apply length_filter).
        rewrite Hl in Hlen. simpl in Hlen. lia.
Qed.

Lemma setItems_same (st : State.t) (f : list GroceryItem.t → list GroceryItem.t) :
  f (State.items st) = State.items st → State.setItems f st = st.
Proof. destruct st. unfold State.setItems. simpl. by intros ->. Qed.

(** X1. [toggleComplete id] keeps the length and the positions of the
    collection, negates [completed] on every item whose id is [id] and
    touches no other field and no other item; when no item has that id
    the state is returned as it was. *)
Theorem toggleComplete_flips (id : jsstring) (st : State.t) :
  let st' := toggleComplete id st in
  length (State.items st') = length (State.items st)
  ∧ (∀ k item, State.items st !! k = Some item →
       ∃ item', State.items st' !! k = Some item'
         ∧ same_but_completed item item'
         ∧ (GroceryItem.id item = id →
            GroceryItem.completed item' = negb (GroceryItem.completed item))
         ∧ (GroceryItem.id item ≠ id → item' = item))
  ∧ (id ∉ map GroceryItem.id (State.items st) → st' = st).
Proof.
  intros st'. subst st'. unfold toggleComplete. split_and!.
  - simpl. apply length_fmap.
  - intros k item Hk. simpl.
    change ((map ?f ?l) !! k) with ((f <$> l) !! k).
    rewrite list_lookup_fmap, Hk. simpl.
    destruct (JsString.eqb (GroceryItem.id item) id) eqn:Hid.
    + eexists. split_and!; [done | by repeat split | done |].
      intros Hne. by apply eqb_true in Hid.
    + exists item. split_and!; [done | by repeat split | | done].
      intros Heq. by apply eqb_false in Hid.
  - intros Hid. apply setItems_same, map_id_fixed. intros item Hitem.
    destruct (JsString.eqb (GroceryItem.id item) id) eqn:Heq; [|done].
    apply eqb_true in Heq. exfalso. apply Hid.
    apply list_elem_of_fmap. by exists item.
Qed.

Lemma toggleComplete_flips_witness :
  let milk := GroceryItem.mk (js "7") (js "Milk") (js "dairy") 2 (js "l")
                false medium None (Some 7) in
  let st := State.setItems (λ _, [milk]) State.initial in
  toggleComplete (js "8") st = st
  ∧ ∃ item', State.items (toggleComplete (js "7") st) !! 0%nat = Some item'
             ∧ GroceryItem.completed item' = true.
Proof.
  intros milk st.
  destruct (toggleComplete_flips (js "8") st) as (_ & _ & Habsent).
  destruct (toggleComplete_flips (js "7") st) as (_ & Hflip & _).
  split.
  - apply Habsent. apply (bool_decide_unpack _). by vm_compute.
  - destruct (Hflip 0%nat milk eq_refl) as (item' & Hk & _ & Hdone & _).
    exists item'. split; [exact Hk|]. by apply Hdone.
Defined.

(** X3. [deleteItem id] keeps exactly the items whose id is not [id], in
    their original order; afterwards no item has that id, so deleting
    again changes nothing, and deleting an id that is absent returns the
    state as it was. *)
Theorem deleteItem_removes (id : jsstring) (st : State.t) :
  let st' := deleteItem id st in
  selects (λ item, GroceryItem.id item ≠ id) (State.items st) (State.items st')
  ∧ (id ∉ map GroceryItem.id (State.items st'))
  ∧ deleteItem id st' = st'
  ∧ (id ∉ map GroceryItem.id (State.items st) → st' = st).
Proof.
  intros st'.
  assert (Hsel : selects (λ item, GroceryItem.id item ≠ id)
                   (State.items st) (State.items st')).
  { apply filter_selects. intros item.
    rewrite negb_true_iff. apply eqb_false. }
  assert (Hfix : ∀ s, id ∉ map GroceryItem.id (State.items s) →
                      deleteItem id s = s).
  { intros s Hid. apply setItems_same, filter_fixed. intros item Hitem.
    apply negb_true_iff, eqb_false. intros Heq. apply Hid.
    apply list_elem_of_fmap. by exists item. }
  assert (Hgone : id ∉ map GroceryItem.id (State.items st')).
  { intros (item & Heq & Hitem)%list_elem_of_fmap.
    apply (selects_elem_of _ _ _ item Hsel) in Hitem as [_ Hne]. done. }
  split_and!; [done | done | by apply Hfix | apply Hfix].
Qed.

Lemma deleteItem_removes_witness :
  let milk := GroceryItem.mk (js "7") (js "Milk") (js "dairy") 2 (js "l")
                false medium None (Some 7) in
  let st := State.setItems (λ _, [milk]) State.initial in
  deleteItem (js "8") st = st.
Proof.
  intros milk st.
  destruct (deleteItem_removes (js "8") st) as (_ & _ & _ & H).
  apply H. apply (bool_decide_unpack _). by vm_compute.
Defined.

(** Two items of a collection with unique ids that share an id are the
    same item. *)
Lemma ids_unique_same (l : list GroceryItem.t) (a b : GroceryItem.t) :
  ids_unique l → a ∈ l → b ∈ l → GroceryItem.id a = GroceryItem.id b → a = b.
Proof.
  unfold ids_unique. induction l as [|x l IH]; simpl; intros Hnd Ha Hb Heq.
  - by apply elem_of_nil in Ha.
  - apply NoDup_cons in Hnd as [Hx Hnd].
    apply elem_of_cons in Ha as [->|Ha]; apply elem_of_cons in Hb as [->|Hb].
    + done.
    + exfalso. apply Hx. rewrite Heq. apply list_elem_of_fmap. by exists b.
    + exfalso. apply Hx. rewrite <- Heq. apply list_elem_of_fmap. by exists a.
    + by apply IH.
Qed.

(** X4. In a collection with unique ids, deleting the id of an item of
    the collection removes exactly that one item: the collection gets one
    shorter and every other item stays. *)
Theorem deleteItem_removes_one (item : GroceryItem.t) (st : State.t) :
  ids_unique (State.items st) →
  item ∈ State.items st →
  let st' := deleteItem (GroceryItem.id item) st in
  S (length (State.items st')) = length (State.items st)
  ∧ (item ∉ State.items st')
  ∧ (∀ other, other ∈ State.items st → other ≠ item → other ∈ State.items st').
Proof.
  intros Hnd Hitem st'.
  assert (Hsel : selects (λ x, GroceryItem.id x ≠ GroceryItem.id item)
                   (State.items st) (State.items st')).
  { apply filter_selects. intros x. rewrite negb_true_iff. apply eqb_false. }
  split_and!.
  - subst st'. unfold deleteItem. simpl. clear Hsel.
    induction (State.items st) as [|x l IH]; [by apply elem_of_nil in Hitem|].
    simpl. destruct (JsString.eqb (GroceryItem.id x) (GroceryItem.id item)) eqn:Hx;
      simpl.
    + f_equal. f_equal. apply filter_fixed. intros y Hy.
      apply negb_true_iff, eqb_false. intros Hyi.
      apply eqb_true in Hx. unfold ids_unique in Hnd. simpl in Hnd.
      apply NoDup_cons in Hnd as [Hnotin _]. apply Hnotin.
      rewrite Hx, <- Hyi. apply list_elem_of_fmap. by exists y.
    + f_equal. apply IH.
      * unfold ids_unique in *. simpl in Hnd. by apply NoDup_cons in Hnd as [_ ?].
      * apply elem_of_cons in Hitem as [->|Hin]; [|done].
        by rewrite eqb_refl in Hx.
  - intros Hin. by apply (selects_elem_of _ _ _ item Hsel) in Hin as [_ Hne].
  - intros other Hother Hne. apply (selects_elem_of _ _ _ other Hsel).
    split; [done|]. intros Heq. apply Hne.
    by apply (ids_unique_same (State.items st)).
Qed.

Lemma deleteItem_removes_one_witness :
  let milk := GroceryItem.mk (js "7") (js "Milk") (js "dairy") 2 (js "l")
                false medium None (Some 7) in
  let bread := GroceryItem.mk (js "8") (js "Bread") (js "bakery") 1 (js "pc")
                 false medium None (Some 8) in
  let st := State.setItems (λ _, [milk; bread]) State.initial in
  S (length (State.items (deleteItem (js "7") st))) = 2%nat.
Proof.
  intros milk bread st.
  destruct (deleteItem_removes_one milk st) as (H & _ & _).
  - apply (bool_decide_unpack _). by vm_compute.
  - apply list_elem_of_here.
  - exact H.
Defined.

Lemma count_completed_toggle_other (id : jsstring) (l : list GroceryItem.t) :
  id ∉ map GroceryItem.id l →
  count_completed
    (map (λ item,
            if JsString.eqb (GroceryItem.id item) id
            then GroceryItem.with_completed (negb (GroceryItem.completed item)) item
            else item) l)
  = count_completed l.
Proof.
  intros Hid. rewrite map_id_fixed; [done|]. intros item Hitem.
  destruct (JsString.eqb (GroceryItem.id item) id) eqn:Heq; [|done].
  apply eqb_true in Heq. exfalso. apply Hid.
  apply list_elem_of_fmap. by exists item.
Qed.

(** X5. In a collection with unique ids, toggling an item of the
    collection moves [completedCount] by exactly one, up when the item was
    open and down when it was completed, and leaves [totalCount] alone. *)
Theorem toggleComplete_counts (item : GroceryItem.t) (st : State.t) :
  ids_unique (State.items st) →
  item ∈ State.items st →
  let st' := toggleComplete (GroceryItem.id item) st in
  totalCount st' = totalCount st
  ∧ (GroceryItem.completed item = false →
     completedCount st' = S (completedCount st))
  ∧ (GroceryItem.completed item = true →
     S (completedCount st') = completedCount st).
Proof.
  intros Hnd Hitem st'. subst st'.
  unfold totalCount, completedCount, toggleComplete. simpl.
  rewrite !length_filter_completed. split; [apply length_fmap|].
  revert Hnd Hitem. unfold ids_unique.
  induction (State.items st) as [|x l IH]; intros Hnd Hitem;
    [by apply elem_of_nil in Hitem|].
  simpl in Hnd. apply NoDup_cons in Hnd as [Hx Hnd]. simpl.
  destruct (JsString.eqb (GroceryItem.id x) (GroceryItem.id item)) eqn:Heq.
  - apply eqb_true in Heq.
    assert (x = item) as ->.
    { apply (ids_unique_same (x :: l)); [|apply list_elem_of_here|done|done].
      unfold ids_unique. simpl. by apply NoDup_cons. }
    rewrite count_completed_toggle_other by done. simpl.
    split; intros ->; simpl; lia.
  - apply elem_of_cons in Hitem as [->|Hin]; [by rewrite eqb_refl in Heq|].
    destruct (IH Hnd Hin) as [Hopen Hdone].
    split; intros Hc; [rewrite (Hopen Hc) | rewrite <- (Hdone Hc)]; lia.
Qed.

Lemma toggleComplete_counts_witness :
  let milk := GroceryItem.mk (js "7") (js "Milk") (js "dairy") 2 (js "l")
                false medium None (Some 7) in
  let bread := GroceryItem.mk (js "8") (js "Bread") (js "bakery") 1 (js "pc")
                 true medium None (Some 8) in
  let st := State.setItems (λ _, [milk; bread]) State.initial in
  completedCount (toggleComplete (js "7") st) = 2%nat.
Proof.
  intros milk bread st.
  destruct (toggleComplete_counts milk st) as (_ & H & _).
  - apply (bool_decide_unpack _). by vm_compute.
  - apply list_elem_of_here.
  - exact (H eq_refl).
Defined.

(** ** How the operations compose *)

Lemma map_map_comm {A} (f g : A → A) (l : list A) :
  (∀ x, f (g x) = g (f x)) → map f (map g l) = map g (map f l).
Proof.
  intros H. induction l as [|x l IH]; simpl; [done|]. by rewrite H, IH.
Qed.

Lemma filter_map_comm {A} (p : A → bool) (f : A → A) (l : list A) :
  (∀ x, p (f x) = p x) → List.filter p (map f l) = map f (List.filter p l).
Proof.
  intros H. induction l as [|x l IH]; simpl; [done|].
  rewrite H. destruct (p x); simpl; by rewrite IH.
Qed.

Lemma filter_filter_comm {A} (p q : A → bool) (l : list A) :
  List.filter p (List.filter q l) = List.filter q (List.filter p l).
Proof.
  induction l as [|x l IH]; simpl; [done|].
  destruct (q x) eqn:Hq, (p x) eqn:Hp; simpl; rewrite ?Hq, ?Hp, IH; done.
Qed.

(** X6. The item operations commute with each other, whatever ids they
    are given, in every pair but one: [updateQuantity] commutes with
    [toggleComplete], [deleteItem] and [clearCompleted]; [deleteItem]
    commutes with [toggleComplete], [clearCompleted] and itself; and
    [toggleComplete] commutes with itself.  (The pair left out,
    [toggleComplete] and [clearCompleted], does not commute.) *)
Theorem item_operations_commute (i j : jsstring) (n : Z) (st : State.t) :
  toggleComplete i (updateQuantity j n st) = updateQuantity j n (toggleComplete i st)
  ∧ deleteItem i (updateQuantity j n st) = updateQuantity j n (deleteItem i st)
  ∧ clearCompleted (updateQuantity j n st) = updateQuantity j n (clearCompleted st)
  ∧ deleteItem i (toggleComplete j st) = toggleComplete j (deleteItem i st)
  ∧ deleteItem i (clearCompleted st) = clearCompleted (deleteItem i st)
  ∧ deleteItem i (deleteItem j st) = deleteItem j (deleteItem i st)
  ∧ toggleComplete i (toggleComplete j st) = toggleComplete j (toggleComplete i st).
Proof.
  unfold updateQuantity.
  split_and!; try (destruct (n <? 1); [done|]);
    unfold toggleComplete, deleteItem, clearCompleted, State.setItems; simpl;
    f_equal.
  - apply map_map_comm. intros [id ? ? ? ? ? ? ? ?]. simpl.
    destruct (JsString.eqb id j) eqn:Hj, (JsString.eqb id i) eqn:Hi; simpl;
      rewrite ?Hj, ?Hi; reflexivity.
  - apply filter_map_comm. intros x.
    by destruct (JsString.eqb (GroceryItem.id x) j).
  - apply filter_map_comm. intros x.
    by destruct (JsString.eqb (GroceryItem.id x) j).
  - apply filter_map_comm. intros x.
    by destruct (JsString.eqb (GroceryItem.id x) j).
  - apply filter_filter_comm.
  - apply filter_filter_comm.
  - apply map_map_comm. intros [id ? ? ? ? ? ? ? ?]. simpl.
    destruct (JsString.eqb id j) eqn:Hj, (JsString.eqb id i) eqn:Hi; simpl;
      rewrite ?Hj, ?Hi; reflexivity.
Qed.

(** Toggling and clearing do not commute: clearing first keeps the item
    that the toggle then completes, toggling first lets the clear remove
    it. *)
Example toggle_clear_do_not_commute :
  let milk := GroceryItem.mk (js "7") (js "Milk") (js "dairy") 2 (js "l")
                false medium None (Some 7) in
  let st := State.setItems (λ _, [milk]) State.initial in
  length (State.items (toggleComplete (js "7") (clearCompleted st))) = 1%nat
  ∧ length (State.items (clearCompleted (toggleComplete (js "7") st))) = 0%nat.
Proof. by split. Qed.

(** ** Quantities on the way in and on the buttons *)

Lemma js_String (c : Ascii.ascii) (s : String.string) :
  js (String.String c s) = Ascii.N_of_ascii c :: js s.
Proof. reflexivity. Qed.

Lemma parseDigits_of_uint_acc (d : Decimal.uint) (acc : positive) :
  JsString.parseDigits 10 (Some (Zpos acc))
    (js (DecimalString.NilEmpty.string_of_uint d))
  = Some (Zpos (Pos.of_uint_acc d acc)).
Proof.
  revert acc. induction d as [|d IH|d IH|d IH|d IH|d IH|d IH|d IH|d IH|d IH|d IH];
    intros acc; [done|..];
    cbn [DecimalString.NilEmpty.string_of_uint Pos.of_uint_acc];
    rewrite js_String, <- IH; reflexivity || (cbn; do 2 f_equal; lia).
Qed.

Lemma parseDigits_of_uint (d : Decimal.uint) :
  JsString.parseDigits 10 (Some 0) (js (DecimalString.NilEmpty.string_of_uint d))
  = Some (Z.of_N (Pos.of_uint d)).
Proof.
  induction d as [|d IH|d IH|d IH|d IH|d IH|d IH|d IH|d IH|d IH|d IH];
    [done|exact IH|..];
    cbn [DecimalString.NilEmpty.string_of_uint Pos.of_uint];
    rewrite js_String; apply (parseDigits_of_uint_acc d).
Qed.

Ltac code_units :=
  repeat match goal with
    | |- context [Ascii.N_of_ascii ?c] =>
        let v := eval vm_compute in (Ascii.N_of_ascii c) in
        change (Ascii.N_of_ascii c) with v
    | H : context [Ascii.N_of_ascii ?c] |- _ =>
        let v := eval vm_compute in (Ascii.N_of_ascii c) in
        change (Ascii.N_of_ascii c) with v in H
    end.

(** [parseInt] on a run of decimal digits, bare and after a minus sign. *)
Lemma parseInt_digits (d : Decimal.uint) :
  d ≠ Decimal.Nil →
  JsString.parseInt (js (DecimalString.NilEmpty.string_of_uint d))
  = Some (Z.of_N (Pos.of_uint d))
  ∧ JsString.parseInt (45%N :: js (DecimalString.NilEmpty.string_of_uint d))
    = Some (- Z.of_N (Pos.of_uint d)).
Proof.
  intros Hd. pose proof (parseDigits_of_uint d) as H.
  destruct d as [|d|d|d|d|d|d|d|d|d|d]; [done|..];
    cbn [DecimalString.NilEmpty.string_of_uint] in *; rewrite js_String in *.
  1: destruct d as [|d|d|d|d|d|d|d|d|d|d];
    cbn [DecimalString.NilEmpty.string_of_uint] in *; rewrite ?js_String in *.
  all: code_units; change (js String.EmptyString) with (@nil N) in *.
  all: unfold JsString.parseInt; cbn - [JsString.parseDigits Z.mul js].
  all: change (JsString.parseDigits 10 None (?c :: ?s))
         with (JsString.parseDigits 10 (Some 0) (c :: s)).
  all: rewrite H.
  all: cbn [fmap option_fmap option_map]; split; f_equal.
  all: cbn [Pos.of_uint]; lia.
Qed.

(** [parseInt] reads the decimal rendering of an integer back as that
    integer. *)
Lemma parseInt_ofInteger (n : Z) :
  JsString.parseInt (JsString.ofInteger n) = Some n.
Proof.
  unfold JsString.ofInteger. destruct n as [|p|p]; [reflexivity|..].
  all: pose proof (DecimalPos.Unsigned.to_uint_nonnil p) as Hnil.
  all: destruct (parseInt_digits (Pos.to_uint p) Hnil) as [Hpos Hneg].
  all: rewrite DecimalPos.Unsigned.of_to in Hpos, Hneg.
  all: cbn [Z.to_int DecimalString.NilZero.string_of_int].
  all: unfold DecimalString.NilZero.string_of_uint.
  all: destruct (Pos.to_uint p) eqn:Hp; [done|..]; rewrite ?js_String; assumption.
Qed.

(** X7. The quantity field after the input's [onChange] is never 0.  When
    the text is the decimal rendering of an integer between -2^53 and 2^53
    (the digits as typed, with a minus sign for a negative one), the
    field holds that integer, a negative one included, except that 0
    gives 1; an empty text or one of white space gives 1.  So the field is
    at least 1 exactly when the text does not parse to a negative number.
    The collection is not touched. *)
Theorem onQuantityChange_never_zero (value : jsstring) (st : State.t) :
  let q := State.quantity (onQuantityChange value st) in
  q ≠ 0
  ∧ (∀ n, value = JsString.ofInteger n → - 2 ^ 53 <= n <= 2 ^ 53 →
       q = if n =? 0 then 1 else n)
  ∧ (JsString.trimStart value = [] → q = 1)
  ∧ (1 <= q ↔ ∀ n, JsString.parseInt value = Some n → 0 <= n)
  ∧ State.items (onQuantityChange value st) = State.items st.
Proof.
  intros q. subst q. rewrite onQuantityChange_quantity. split_and!.
  - destruct (JsString.parseInt value) as [n|]; [|done].
    destruct (Z.eqb_spec n 0); done.
  - intros n -> _. by rewrite parseInt_ofInteger.
  - intros Hempty. unfold JsString.parseInt. by rewrite Hempty.
  - destruct (JsString.parseInt value) as [n|].
    + destruct (Z.eqb_spec n 0) as [->|Hn].
      * split; [intros _ n' [= <-]; lia | lia].
      * split; [intros ? n' [= <-]; lia
               | intros H; specialize (H _ eq_refl); lia].
    + split; [done | lia].
  - done.
Qed.

Lemma onQuantityChange_never_zero_witness :
  State.quantity (onQuantityChange (js "12") State.initial) = 12
  ∧ State.quantity (onQuantityChange (js "-5") State.initial) = -5
  ∧ State.quantity (onQuantityChange (js "0") State.initial) = 1
  ∧ State.quantity (onQuantityChange (js "  ") State.initial) = 1.
Proof.
  destruct (onQuantityChange_never_zero (js "12") State.initial)
    as (_ & Htwelve & _).
  destruct (onQuantityChange_never_zero (js "-5") State.initial)
    as (_ & Hminus & _).
  destruct (onQuantityChange_never_zero (js "0") State.initial)
    as (_ & Hzero & _).
  destruct (onQuantityChange_never_zero (js "  ") State.initial)
    as (_ & _ & Hspace & _).
  split_and!.
  - apply (Htwelve 12); [reflexivity | lia].
  - apply (Hminus (-5)); [reflexivity | lia].
  - apply (Hzero 0); [reflexivity | lia].
  - apply Hspace. reflexivity.
Defined.

(** X8. From the first render, as long as no quantity entry parses to a
    negative number, every event keeps the form's quantity and the
    quantity of every stored item at 1 or more. *)
Theorem quantities_stay_positive (events : list Event) :
  Forall quantity_entry_nonnegative events →
  let st := run events State.initial in
  1 <= State.quantity st ∧ quantities_positive (State.items st).
Proof.
  intros Hev st. apply run_quantities; [done|].
  split; [simpl; lia | constructor].
Qed.

Lemma quantities_stay_positive_witness :
  quantities_positive
    (State.items
       (run [ClickAddFirstItem; ChangeNewItem (js "Milk"); ChangeQuantity (js "3");
             Submit 1700000000000 1700000000000;
             ClickDecrement (GroceryItem.mk (js "1700000000000") (js "Milk")
                               (js "produce") 3 (js "pc") false medium None
                               (Some 1700000000000))]
            State.initial)).
Proof.
  apply quantities_stay_positive.
  repeat constructor. simpl. intros n [= <-]. lia.
Defined.

(** X9. The minus button does nothing on an item of quantity 1 (or
    less): the decrement below 1 is rejected, not clamped.  In a
    collection with unique ids, pressing plus and then minus on an item
    whose quantity is at least 1 and below 2^53 gives the state back.
    (From 2^53 on the sum [quantity + 1] is rounded on the page.) *)
Theorem quantity_buttons (item : GroceryItem.t) (st : State.t) :
  (GroceryItem.quantity item <= 1 → onDecrement item st = st)
  ∧ (ids_unique (State.items st) →
     item ∈ State.items st →
     1 <= GroceryItem.quantity item < 2 ^ 53 →
     onDecrement
       (GroceryItem.with_quantity (GroceryItem.quantity item + 1) item)
       (onIncrement item st)
     = st).
Proof.
  split.
  - intros Hq. unfold onDecrement. apply updateQuantity_rejects. lia.
  - intros Hnd Hitem [Hq _]. unfold onDecrement, onIncrement, updateQuantity.
    simpl.
    destruct (Z.ltb_spec (GroceryItem.quantity item + 1) 1); [lia|].
    destruct (Z.ltb_spec (GroceryItem.quantity item + 1 - 1) 1); [lia|].
    destruct st as [items ? ? ? ? ? ? ? ? ? ?]. unfold State.setItems. simpl in *.
    f_equal. rewrite map_map. apply map_id_fixed. intros x Hx.
    destruct (JsString.eqb (GroceryItem.id x) (GroceryItem.id item)) eqn:Heq.
    + apply eqb_true in Heq.
      assert (x = item) as -> by (by apply (ids_unique_same items)).
      simpl. rewrite eqb_refl. destruct item.
      unfold GroceryItem.with_quantity. simpl. f_equal. lia.
    + by rewrite Heq.
Qed.

Lemma quantity_buttons_witness :
  let milk := GroceryItem.mk (js "7") (js "Milk") (js "dairy") 1 (js "l")
                false medium None (Some 7) in
  let st := State.setItems (λ _, [milk]) State.initial in
  onDecrement milk st = st
  ∧ onDecrement (GroceryItem.with_quantity 2 milk) (onIncrement milk st) = st.
Proof.
  intros milk st. destruct (quantity_buttons milk st) as [Hdec Hboth].
  split.
  - apply Hdec. simpl. lia.
  - apply Hboth.
    + apply (bool_decide_unpack _). by vm_compute.
    + apply list_elem_of_here.
    + simpl. lia.
Defined.

(** ** Submitting the form *)

(** X10. An accepted submission empties the name field, puts the
    quantity back to 1 and closes the form, and leaves the category,
    priority, unit, search term, filter, view mode and theme as they
    were.  The closing form still holds the handler of the render it was
    submitted from, whose name field is not empty: a second submit
    through it is accepted too and appends a second item with the same
    name, category, quantity, unit and priority, so a double submit
    creates two items.  A submit through the form once it is opened
    again, before a name is typed, adds nothing. *)
Theorem addItem_resets_form (idClock dateClock idClock' dateClock' : Z)
    (st : State.t) :
  let created idClock dateClock :=
    GroceryItem.mk (JsString.ofInteger idClock)
      (JsString.trim (State.newItem st)) (State.selectedCategory st)
      (State.quantity st) (State.unit st) false (State.selectedPriority st)
      None (Some dateClock) in
  let st' := addItem idClock dateClock st in
  let reopened := handle ClickToggleForm st' in
  JsString.trim (State.newItem st) ≠ [] →
  (State.newItem st' = []
   ∧ State.quantity st' = 1
   ∧ State.showAddForm st' = false
   ∧ State.selectedCategory st' = State.selectedCategory st
   ∧ State.selectedPriority st' = State.selectedPriority st
   ∧ State.unit st' = State.unit st
   ∧ State.searchTerm st' = State.searchTerm st
   ∧ State.filterCategory st' = State.filterCategory st
   ∧ State.viewMode st' = State.viewMode st
   ∧ State.isDark st' = State.isDark st)
  ∧ State.items st' = State.items st ++ [created idClock dateClock]
  ∧ addItemFrom st idClock' dateClock' st'
    = State.setItems (λ prev, prev ++ [created idClock' dateClock']) st'
  ∧ State.items (addItemFrom st idClock' dateClock' st')
    = State.items st
      ++ [created idClock dateClock; created idClock' dateClock']
  ∧ State.showAddForm reopened = true
  ∧ addItem idClock' dateClock' reopened = reopened.
Proof.
  intros created st' reopened Hname%truthy_true.
  subst created st' reopened. unfold addItemFrom, addItem.
  rewrite Hname. simpl. rewrite <- app_assoc. done.
Qed.

Lemma addItem_resets_form_witness :
  let st := State.setShowAddForm true
              (State.setQuantity 4 (State.setNewItem (js "Milk") State.initial)) in
  State.quantity (addItem 1000 1000 st) = 1
  ∧ map GroceryItem.name
      (State.items (addItemFrom st 1000 1000 (addItem 1000 1000 st)))
    = [js "Milk"; js "Milk"].
Proof.
  intros st.
  destruct (addItem_resets_form 1000 1000 1000 1000 st)
    as ((_ & Hq & _) & _ & _ & Htwice & _); [by vm_compute|].
  split.
  - exact Hq.
  - rewrite Htwice. reflexivity.
Defined.

(** X11. The Add button is disabled exactly when [addItem] would ignore
    the submission: [!newItem.trim()] holds if and only if [addItem]
    returns the state unchanged. *)
Theorem addButtonDisabled_iff (idClock dateClock : Z) (st : State.t) :
  addButtonDisabled st = true ↔ addItem idClock dateClock st = st.
Proof.
  unfold addButtonDisabled. rewrite negb_true_iff. split.
  - intros H. unfold addItem. by rewrite H.
  - intros H. destruct (JsString.truthy _) eqn:Htrim; [|done].
    apply truthy_true in Htrim.
    apply (f_equal (λ s, length (State.items s))) in H.
    rewrite (addItem_items _ _ _ Htrim), length_app in H. simpl in H. lia.
Qed.

(** X12. The Clear Completed button is disabled exactly when
    [clearCompleted] would change nothing, and it is disabled after
    every [clearCompleted]. *)
Theorem clearButtonDisabled_iff (st : State.t) :
  (clearButtonDisabled st = true ↔ clearCompleted st = st)
  ∧ clearButtonDisabled (clearCompleted st) = true
  ∧ (totalCount (clearCompleted st) + completedCount st = totalCount st)%nat.
Proof.
  unfold clearButtonDisabled, completedCount, totalCount.
  rewrite !length_filter_completed.
  assert (Hlen := length_filter_not_completed (State.items st)).
  assert (Hzero : ∀ l, count_completed l = O
                       ↔ Forall (λ item, GroceryItem.completed item = false) l).
  { induction l as [|item l IH]; simpl; [done|].
    destruct (GroceryItem.completed item) eqn:Hc; simpl.
    - split; [done | inv 1; congruence].
    - rewrite IH. split; [by constructor | by inv 1]. }
  split_and!.
  - rewrite Nat.eqb_eq, Hzero. split; [apply clearCompleted_fixed|].
    intros Heq. rewrite <- Heq.
    eapply selects_Forall, clearCompleted_selects.
  - rewrite Nat.eqb_eq, Hzero.
    eapply selects_Forall, clearCompleted_selects.
  - exact Hlen.
Qed.

(** ** What every stored item looks like *)

Lemma trimStart_fixed (s : jsstring) :
  (∀ c, head s = Some c → ¬ whitespace c) → JsString.trimStart s = s.
Proof.
  destruct s as [|c s]; [done|]. intros H. simpl.
  destruct (JsString.isWhiteSpace c) eqn:Hc; [|done].
  by destruct (H c eq_refl).
Qed.

Lemma trim_fixed (s : jsstring) :
  (∀ c, head s = Some c → ¬ whitespace c) →
  (∀ c, last s = Some c → ¬ whitespace c) →
  JsString.trim s = s.
Proof.
  intros Hhead Hlast. unfold JsString.trim, JsString.trimEnd.
  rewrite (trimStart_fixed s) by done.
  rewrite trimStart_fixed; [apply reverse_involutive|].
  intros c. rewrite head_reverse. apply Hlast.
Qed.

Lemma trim_idempotent (s : jsstring) :
  JsString.trim (JsString.trim s) = JsString.trim s.
Proof.
  destruct (trim_split s) as (l & r & _ & _ & _ & Hhead & Hlast).
  by apply trim_fixed.
Qed.

Lemma Forall_item_update (P : GroceryItem.t → Prop)
    (f : GroceryItem.t → GroceryItem.t) (l : list GroceryItem.t) :
  (∀ item, P item → P (f item)) → Forall P l → Forall P (map f l).
Proof.
  intros Hf. induction 1 as [|item l Hitem _ IH]; simpl; constructor; auto.
Qed.

Lemma item_wellformed_with_completed (b : bool) (item : GroceryItem.t) :
  item_wellformed item → item_wellformed (GroceryItem.with_completed b item).
Proof. done. Qed.

Lemma item_wellformed_with_quantity (n : Z) (item : GroceryItem.t) :
  item_wellformed item → item_wellformed (GroceryItem.with_quantity n item).
Proof. done. Qed.

(** X13. In every state the page reaches, the form's category is one of
    the table and its unit one of the unit list, and every stored item
    has a non-empty name with no white space at either end, a category of
    the table, a unit of the unit list, no [estimatedPrice], a valid
    [addedAt], and as id the decimal rendering of a valid clock
    reading. *)
Theorem reachable_items_wellformed (st : State.t) :
  reachable st →
  State.selectedCategory st ∈ map Category.id categories
  ∧ State.unit st ∈ unitOptions
  ∧ Forall item_wellformed (State.items st).
Proof.
  induction 1 as [|st e _ (IHcat & IHunit & IH) He].
  - split_and!; [apply list_elem_of_here | apply list_elem_of_here | constructor].
  - destruct e; cbn [handle]; try (split_and!; assumption).
    + unfold addItem.
      destruct (JsString.truthy _) eqn:Htrim; [|by split_and!].
      split_and!; [exact IHcat | exact IHunit |].
      simpl. apply Forall_app. split; [exact IH|].
      constructor; [|constructor]. destruct He as [Hid Hdate].
      unfold item_wellformed.
      cbn [GroceryItem.name GroceryItem.category GroceryItem.unit
           GroceryItem.estimatedPrice GroceryItem.addedAt GroceryItem.id].
      split_and!;
        [ by apply truthy_true | apply trim_idempotent | exact IHcat
        | exact IHunit | done | exact Hdate | by exists idClock ].
    + split_and!; [exact IHcat | exact IHunit |].
      unfold toggleComplete. simpl. apply Forall_item_update; [|exact IH].
      intros item Hitem. destruct (JsString.eqb _ _); [|done].
      by apply item_wellformed_with_completed.
    + unfold onDecrement, updateQuantity. destruct (_ <? 1); [by split_and!|].
      split_and!; [exact IHcat | exact IHunit |].
      simpl. apply Forall_item_update; [|exact IH].
      intros item' Hitem. destruct (JsString.eqb _ _); [|done].
      by apply item_wellformed_with_quantity.
    + unfold onIncrement, updateQuantity. destruct (_ <? 1); [by split_and!|].
      split_and!; [exact IHcat | exact IHunit |].
      simpl. apply Forall_item_update; [|exact IH].
      intros item' Hitem. destruct (JsString.eqb _ _); [|done].
      by apply item_wellformed_with_quantity.
    + split_and!; [exact IHcat | exact IHunit | by apply Forall_filter_bool].
    + split_and!; [exact IHcat | exact IHunit | by apply Forall_filter_bool].
Qed.

Lemma reachable_items_wellformed_witness :
  Forall item_wellformed
    (State.items
       (run [ClickAddFirstItem; ChangeNewItem (js "  Milk ");
             ChangeSelectedCategory (js "dairy"); ChangeUnit (js "l");
             Submit 1700000000000 1700000000000]
            State.initial)).
Proof.
  apply reachable_items_wellformed.
  apply reachable_run; [constructor|].
  simpl. unfold DateTime.valid, DateTime.maxTime.
  split_and!; try done; try lia.
  - apply (bool_decide_unpack _). by vm_compute.
  - apply (bool_decide_unpack _). by vm_compute.
Defined.

Lemma reachable_viewMode_witness :
  State.viewMode
    (run [ClickViewMode view_all; ClickViewMode view_category; ClickViewMode view_all]
         State.initial)
  ≠ view_priority.
Proof.
  apply reachable_viewMode.
  apply reachable_run; [constructor|]. simpl. split_and!; auto.
Defined.

(** ** Searching and grouping at the edges *)

Lemma filter_sublist_impl {A} (p q : A → bool) (l : list A) :
  (∀ x, p x = true → q x = true) →
  List.filter p l `sublist_of` List.filter q l.
Proof.
  intros Hpq. induction l as [|x l IH]; simpl; [done|].
  destruct (p x) eqn:Hp.
  - rewrite (Hpq x Hp). by apply sublist_skip.
  - destruct (q x); [by apply sublist_cons | done].
Qed.

(** X15. An empty search term excludes nothing: with [toLowerCase]
    mapping the empty string to itself, the filter stage then keeps
    exactly the items of the filter category, and with the filter on
    ["all"] it returns the whole collection as it is. *)
Theorem filteredItems_empty_search (toLowerCase : jsstring → jsstring)
    (st : State.t) :
  toLowerCase [] = [] →
  State.searchTerm st = [] →
  selects (λ item, State.filterCategory st = js "all"
                   ∨ GroceryItem.category item = State.filterCategory st)
    (State.items st) (filteredItems toLowerCase st)
  ∧ (State.filterCategory st = js "all" →
     filteredItems toLowerCase st = State.items st).
Proof.
  intros Hlower Hterm. unfold filteredItems. rewrite Hterm, Hlower. split.
  - apply filter_selects. intros item. simpl.
    rewrite andb_true_iff, includes_substring, orb_true_iff, !eqb_true.
    split; [by intros [_ ?] | intros H; split; [|done]].
    by exists [], (toLowerCase (GroceryItem.name item)).
  - intros Hall. apply filter_fixed. intros item _. simpl.
    rewrite Hall, eqb_refl, andb_true_r. apply includes_substring.
    by exists [], (toLowerCase (GroceryItem.name item)).
Qed.

Lemma filteredItems_empty_search_witness :
  let milk := GroceryItem.mk (js "1") (js "Milk") (js "dairy") 1 (js "l")
                false medium None (Some 1) in
  let st := State.setItems (λ _, [milk]) State.initial in
  filteredItems (map JsString.lowerAscii) st = [milk].
Proof.
  intros milk st.
  destruct (filteredItems_empty_search (map JsString.lowerAscii) st) as [_ H];
    [reflexivity | reflexivity |].
  apply H. reflexivity.
Defined.

Lemma filteredItems_map_narrowing (lower : N → N) (st : State.t) (term : jsstring) :
  substring_of (State.searchTerm st) term →
  filteredItems (map lower) (State.setSearchTerm term st)
  `sublist_of` filteredItems (map lower) st.
Proof.
  intros (pre & suf & ->). unfold filteredItems. simpl.
  apply filter_sublist_impl. intros item.
  rewrite !andb_true_iff, !includes_substring.
  intros [(pre' & suf' & Hname) Hcat]. split; [|done].
  exists (pre' ++ map lower pre), (map lower suf ++ suf').
  rewrite Hname, !map_app, <- !app_assoc. done.
Qed.

(** The filter stage reads [toLowerCase] at the search term and at the
    names of the items only. *)
Lemma filteredItems_ext (f g : jsstring → jsstring) (st : State.t) :
  f (State.searchTerm st) = g (State.searchTerm st) →
  Forall (λ item, f (GroceryItem.name item) = g (GroceryItem.name item))
    (State.items st) →
  filteredItems f st = filteredItems g st.
Proof.
  intros Hterm Hnames. unfold filteredItems. rewrite Hterm.
  induction Hnames as [|item items Hitem _ IH]; [done|].
  simpl. by rewrite Hitem, IH.
Qed.

(** X16. Among ASCII names, typing more never adds results: when the
    search term is replaced by an ASCII one that contains it (characters
    added before or after), the new result is a sublist of the old one.
    [toLowerCase] enters through its values on ASCII strings, where it
    works letter by letter. *)
Theorem search_narrowing (toLowerCase : jsstring → jsstring)
    (st : State.t) (term : jsstring) :
  (∀ s, JsString.isAscii s → toLowerCase s = map JsString.lowerAscii s) →
  Forall (λ item, JsString.isAscii (GroceryItem.name item)) (State.items st) →
  JsString.isAscii term →
  substring_of (State.searchTerm st) term →
  filteredItems toLowerCase (State.setSearchTerm term st)
  `sublist_of` filteredItems toLowerCase st.
Proof.
  intros Hlower Hnames Hterm Hsub.
  assert (Hold : JsString.isAscii (State.searchTerm st)).
  { destruct Hsub as (pre & suf & ->).
    apply Forall_app in Hterm as [_ Hterm]. by apply Forall_app in Hterm as [? _]. }
  rewrite (filteredItems_ext toLowerCase (map JsString.lowerAscii)
             (State.setSearchTerm term st)),
          (filteredItems_ext toLowerCase (map JsString.lowerAscii) st).
  - by apply filteredItems_map_narrowing.
  - by apply Hlower.
  - eapply Forall_impl; [exact Hnames|]. intros item. apply Hlower.
  - by apply Hlower.
  - eapply Forall_impl; [exact Hnames|]. intros item. apply Hlower.
Qed.

Lemma search_narrowing_witness :
  let milk := GroceryItem.mk (js "1") (js "Milk") (js "dairy") 1 (js "l")
                false medium None (Some 1) in
  let mint := GroceryItem.mk (js "2") (js "Mint") (js "produce") 1 (js "pc")
                false medium None (Some 2) in
  let st := State.setSearchTerm (js "mi")
              (State.setItems (λ _, [milk; mint]) State.initial) in
  filteredItems lowerKnown (State.setSearchTerm (js "mil") st)
  `sublist_of` filteredItems lowerKnown st.
Proof.
  intros milk mint st.
  apply search_narrowing.
  - apply lowerKnown_host.
  - apply (bool_decide_unpack _). by vm_compute.
  - apply (bool_decide_unpack _). by vm_compute.
  - by exists [], (js "l").
Defined.

Lemma NoDup_constant_length {A} (a : A) (l : list A) :
  NoDup l → (∀ x, x ∈ l → x = a) → (length l ≤ 1)%nat.
Proof.
  intros Hnd Hall. destruct l as [|x [|y l]]; simpl; [lia | lia |].
  exfalso. apply NoDup_cons in Hnd as [Hx _]. apply Hx.
  rewrite (Hall x), <- (Hall y); [apply list_elem_of_here | |].
  - right. apply list_elem_of_here.
  - apply list_elem_of_here.
Qed.

(** X17. With a category chosen in the filter (anything but ["all"]),
    every filtered item has that category, and the ['category'] view
    shows at most one group: if there is one, it is keyed by the chosen
    category and holds all the filtered items. *)
Theorem filterCategory_single_group (toLowerCase : jsstring → jsstring)
    (st : State.t) :
  State.filterCategory st ≠ js "all" →
  State.viewMode st = view_category →
  let filtered := filteredItems toLowerCase st in
  let groups := groupedItems toLowerCase st in
  Forall (λ item, GroceryItem.category item = State.filterCategory st) filtered
  ∧ (∀ k g, (k, g) ∈ groups →
       k = State.filterCategory st ∧ snd g = filtered)
  ∧ (length groups ≤ 1)%nat.
Proof.
  intros Hfc Hmode filtered groups.
  assert (Hcat : Forall (λ item, GroceryItem.category item
                                 = State.filterCategory st) filtered).
  { eapply Forall_impl; [eapply selects_Forall, filteredItems_selects|].
    intros item [_ [Hall|Heq]]; [done | exact Heq]. }
  assert (Hgroups : groups = category_groups filtered categories)
    by (by apply groupedItems_category).
  assert (Hentry : ∀ k g, (k, g) ∈ groups →
                     k = State.filterCategory st ∧ snd g = filtered).
  { intros k g Hin. rewrite Hgroups in Hin.
    apply category_groups_entry in Hin as (c & _ & _ & _ & Hne & Hits).
    assert (Hk : k = State.filterCategory st).
    { destruct (snd g) as [|item its] eqn:Hg; [done|].
      assert (Hitem : item ∈ filter (λ item, GroceryItem.category item = k) filtered)
        by (rewrite <- Hits; apply list_elem_of_here).
      apply list_elem_of_filter in Hitem as [Hk Hitem].
      rewrite <- Hk. by apply (proj1 (Forall_forall _ _) Hcat). }
    split; [done|]. rewrite Hits, Hk. clear -Hcat.
    induction Hcat as [|item l Hitem _ IH]; [done|].
    rewrite filter_cons, decide_True by done. by rewrite IH. }
  split_and!; [done | done |].
  rewrite <- (length_fmap fst).
  apply (NoDup_constant_length (State.filterCategory st)).
  - fold (map fst groups). rewrite Hgroups, category_groups_keys.
    apply NoDup_filter, categories_NoDup.
  - intros k (entry & -> & Hin)%list_elem_of_fmap.
    destruct entry as [k g]. simpl. by apply (Hentry k g).
Qed.

Lemma filterCategory_single_group_witness :
  let milk := GroceryItem.mk (js "1") (js "Milk") (js "dairy") 1 (js "l")
                false medium None (Some 1) in
  let bread := GroceryItem.mk (js "2") (js "Bread") (js "bakery") 1 (js "pc")
                 false medium None (Some 2) in
  let st := State.setFilterCategory (js "dairy")
              (State.setItems (λ _, [bread; milk]) State.initial) in
  (length (groupedItems (map JsString.lowerAscii) st) ≤ 1)%nat.
Proof.
  intros milk bread st.
  destruct (filterCategory_single_group (map JsString.lowerAscii) st)
    as (_ & _ & H).
  - by intros ?%js_inj.
  - reflexivity.
  - exact H.
Defined.

(** X18. When every item's category is in the table, the ['category']
    view shows no group at all exactly when no item passes the filter
    stage (the other views always show their one group, empty or not). *)
Theorem groupedItems_empty (toLowerCase : jsstring → jsstring) (st : State.t) :
  categories_known (State.items st) →
  State.viewMode st = view_category →
  groupedItems toLowerCase st = [] ↔ filteredItems toLowerCase st = [].
Proof.
  intros Hknown Hmode. rewrite groupedItems_category by done.
  assert (Hall : Forall (λ item, GroceryItem.category item
                                 ∈ map Category.id categories)
                   (filteredItems toLowerCase st)).
  { apply Forall_forall. intros item Hitem.
    apply (proj1 (Forall_forall _ _) Hknown).
    eapply elem_of_sublist; [exact Hitem | apply filteredItems_sublist]. }
  split.
  - intros Hnil.
    pose proof (category_groups_concat (filteredItems toLowerCase st) categories
                  categories_NoDup) as Hperm.
    rewrite Hnil in Hperm. simpl in Hperm. symmetry in Hperm.
    apply Permutation_nil_r in Hperm.
    destruct (filteredItems toLowerCase st) as [|item l]; [done|].
    apply Forall_cons in Hall as [Hitem _].
    rewrite filter_cons, decide_True in Hperm by done. done.
  - intros ->. reflexivity.
Qed.

Lemma groupedItems_empty_witness :
  let milk := GroceryItem.mk (js "1") (js "Milk") (js "dairy") 1 (js "l")
                false medium None (Some 1) in
  let st := State.setSearchTerm (js "zzz")
              (State.setItems (λ _, [milk]) State.initial) in
  groupedItems (map JsString.lowerAscii) st = [].
Proof.
  intros milk st.
  apply (groupedItems_empty (map JsString.lowerAscii) st).
  - apply (bool_decide_unpack _). by vm_compute.
  - reflexivity.
  - reflexivity.
Defined.

(** ** Storage at the edges *)

(** X19. A restart brings back the items and the theme and nothing
    else: after the save effects have written a state whose dates are
    valid, the load effect run on the state of a first render ends in
    that first state with the saved items and the saved theme (the form,
    the search term, the filter and the view mode are those of a first
    render). *)
Theorem restart_restores_items_and_theme
    (hostDateParse : jsstring → option Z) (st : State.t) (sto : Storage.t) :
  dates_valid (State.items st) →
  loadEffect hostDateParse (saveTheme st (saveItems st sto)) State.initial
  = Ok (State.setIsDark (State.isDark st)
          (State.setItems (λ _, State.items st) State.initial)).
Proof.
  intros Hvalid. unfold loadEffect, saveTheme, saveItems.
  cbn [Storage.modernGroceryList Storage.groceryListTheme parsedItems].
  rewrite reviveAll_items by done.
  by destruct (State.isDark st).
Qed.

Lemma restart_restores_items_and_theme_witness :
  let milk := GroceryItem.mk (js "1700000000000") (js "Milk") (js "dairy") 2
                (js "l") true high None (Some 1700000000123) in
  let st := State.setSearchTerm (js "mi")
              (State.setIsDark true (State.setItems (λ _, [milk]) State.initial)) in
  loadEffect (λ _, None) (saveTheme st (saveItems st (Storage.mk None None)))
    State.initial
  = Ok (State.setIsDark true (State.setItems (λ _, [milk]) State.initial)).
Proof.
  intros milk st.
  apply (restart_restores_items_and_theme (λ _, None) st).
  repeat constructor; simpl; unfold DateTime.maxTime; lia.
Defined.

Lemma reviveAll_null (hostDateParse : jsstring → option Z) (elems : list json) :
  JNull ∈ elems → reviveAll hostDateParse elems = Throws.
Proof.
  induction elems as [|v elems IH]; [by intros ?%elem_of_nil|].
  intros [<-|Hin]%elem_of_cons; [done|].
  cbn [reviveAll]. rewrite (IH Hin).
  by destruct (reviveItem hostDateParse v).
Qed.

(** X20. The load effect has no fallback for a damaged items entry: a
    stored text that is not JSON, a JSON value that is not an array, and
    an array with a [null] element each make it throw.  An absent entry
    and an empty string are skipped, and the collection stays what it
    was. *)
Theorem loadEffect_damaged_entry (hostDateParse : jsstring → option Z)
    (sto : Storage.t) (st : State.t) :
  (Storage.modernGroceryList sto = Some NotJson →
   loadEffect hostDateParse sto st = Throws)
  ∧ (∀ v, Storage.modernGroceryList sto = Some (JsonText v) →
          (∀ elems, v ≠ JArr elems) →
          loadEffect hostDateParse sto st = Throws)
  ∧ (∀ elems, Storage.modernGroceryList sto = Some (JsonText (JArr elems)) →
              JNull ∈ elems →
              loadEffect hostDateParse sto st = Throws)
  ∧ (Storage.modernGroceryList sto = None
     ∨ Storage.modernGroceryList sto = Some EmptyText →
     ∃ st', loadEffect hostDateParse sto st = Ok st'
            ∧ State.items st' = State.items st).
Proof.
  unfold loadEffect. split_and!.
  - by intros ->.
  - intros v -> Hv. destruct v; try done. by destruct (Hv elems).
  - intros elems -> Hnull. cbn [parsedItems].
    by rewrite reviveAll_null.
  - intros [-> | ->];
      (destruct (Storage.groceryListTheme sto) as [theme|]; [|by eexists]);
      destruct (JsString.truthy theme); by eexists.
Qed.

Lemma loadEffect_damaged_entry_witness :
  loadEffect (λ _, None) (Storage.mk (Some NotJson) None) State.initial = Throws
  ∧ loadEffect (λ _, None) (Storage.mk (Some (JsonText (JObj []))) None)
      State.initial = Throws
  ∧ loadEffect (λ _, None) (Storage.mk (Some (JsonText (JArr [JNull]))) None)
      State.initial = Throws
  ∧ ∃ st', loadEffect (λ _, None) (Storage.mk None (Some (js "dark")))
             State.initial = Ok st'
           ∧ State.items st' = [].
Proof.
  split_and!.
  - by apply (loadEffect_damaged_entry (λ _, None)).
  - destruct (loadEffect_damaged_entry (λ _, None)
                (Storage.mk (Some (JsonText (JObj []))) None) State.initial)
      as (_ & H & _).
    by apply (H (JObj [])).
  - destruct (loadEffect_damaged_entry (λ _, None)
                (Storage.mk (Some (JsonText (JArr [JNull]))) None) State.initial)
      as (_ & _ & H & _).
    apply (H [JNull]); [done | apply list_elem_of_here].
  - destruct (loadEffect_damaged_entry (λ _, None)
                (Storage.mk None (Some (js "dark"))) State.initial)
      as (_ & _ & _ & H).
    apply H. by left.
Defined.

(** X21. What one saved item comes back as: itself when its [addedAt]
    is a valid date, and with [addedAt] at the epoch when it is an
    invalid date (written as [null], which [new Date] reads as 0); every
    other field comes back unchanged in both cases. *)
Theorem reviveItem_after_save (hostDateParse : jsstring → option Z)
    (item : GroceryItem.t) :
  (DateTime.valid (GroceryItem.addedAt item) →
   reviveItem hostDateParse (item_to_json item) = Ok item)
  ∧ (GroceryItem.addedAt item = None →
     reviveItem hostDateParse (item_to_json item)
     = Ok (GroceryItem.mk (GroceryItem.id item) (GroceryItem.name item)
             (GroceryItem.category item) (GroceryItem.quantity item)
             (GroceryItem.unit item) (GroceryItem.completed item)
             (GroceryItem.priority item) (GroceryItem.estimatedPrice item)
             (Some 0))).
Proof.
  split; [apply reviveItem_item_to_json|].
  intros Hdate. unfold item_to_json, reviveItem.
  by rewrite revive_props, Hdate.
Qed.

Lemma reviveItem_after_save_witness :
  let milk (d : Date.t) :=
    GroceryItem.mk (js "1") (js "Milk") (js "dairy") 2 (js "l") true high None d in
  reviveItem (λ _, None) (item_to_json (milk (Some 1700000000123)))
  = Ok (milk (Some 1700000000123))
  ∧ reviveItem (λ _, None) (item_to_json (milk None)) = Ok (milk (Some 0)).
Proof.
  intros milk.
  destruct (reviveItem_after_save (λ _, None) (milk (Some 1700000000123)))
    as [Hvalid _].
  destruct (reviveItem_after_save (λ _, None) (milk None)) as [_ Hinvalid].
  split.
  - apply Hvalid. simpl. unfold DateTime.maxTime. lia.
  - apply Hinvalid. reflexivity.
Defined.

(** ** Ids *)

(** X22. No event rewrites or invents an id: after any event other than
    a submission, the ids of the collection are ids that were there
    before, in the same order, so a collection with unique ids keeps
    unique ids. *)
Theorem ids_only_removed (e : Event) (st : State.t) :
  (∀ idClock dateClock, e ≠ Submit idClock dateClock) →
  map GroceryItem.id (State.items (handle e st))
  `sublist_of` map GroceryItem.id (State.items st)
  ∧ (ids_unique (State.items st) → ids_unique (State.items (handle e st))).
Proof.
  intros He. destruct (handle_ids e st) as (kept & Hkept & Hids).
  assert (Hnone : idClocks [e] st = []).
  { destruct e; try done. by destruct (He idClock dateClock). }
  rewrite Hnone, app_nil_r in Hids. rewrite Hids. split; [done|].
  unfold ids_unique. rewrite Hids. intros Hnd. by eapply sublist_NoDup.
Qed.

Lemma ids_only_removed_witness :
  let milk := GroceryItem.mk (js "7") (js "Milk") (js "dairy") 2 (js "l")
                false medium None (Some 7) in
  let st := State.setItems (λ _, [milk]) State.initial in
  ids_unique (State.items (handle (ClickComplete (js "7")) st)).
Proof.
  intros milk st.
  destruct (ids_only_removed (ClickComplete (js "7")) st) as [_ H]; [done|].
  apply H. apply (bool_decide_unpack _). by vm_compute.
Defined.

(** ** Later operations on the same item *)

(** X23. On one id the last operation wins: a second [updateQuantity]
    with a quantity of at least 1 makes the first one irrelevant, and
    [deleteItem] makes an earlier [updateQuantity] or [toggleComplete] of
    the same id irrelevant. *)
Theorem later_operation_wins (id : jsstring) (m n : Z) (st : State.t) :
  (1 <= m → updateQuantity id m (updateQuantity id n st) = updateQuantity id m st)
  ∧ deleteItem id (updateQuantity id n st) = deleteItem id st
  ∧ deleteItem id (toggleComplete id st) = deleteItem id st.
Proof.
  split_and!.
  - intros Hm. unfold updateQuantity.
    destruct (Z.ltb_spec m 1); [lia|]. destruct (n <? 1); [done|].
    unfold State.setItems. simpl. f_equal. rewrite map_map.
    apply map_ext. intros [i ? ? ? ? ? ? ? ?]. simpl.
    destruct (JsString.eqb i id) eqn:Hi; simpl; by rewrite Hi.
  - unfold updateQuantity. destruct (n <? 1); [done|].
    unfold deleteItem, State.setItems. simpl. f_equal.
    induction (State.items st) as [|[i ? ? ? ? ? ? ? ?] l IH]; simpl; [done|].
    destruct (JsString.eqb i id) eqn:Hi; simpl; rewrite Hi; simpl; by rewrite IH.
  - unfold deleteItem, toggleComplete, State.setItems. simpl. f_equal.
    induction (State.items st) as [|[i ? ? ? ? ? ? ? ?] l IH]; simpl; [done|].
    destruct (JsString.eqb i id) eqn:Hi; simpl; rewrite Hi; simpl; by rewrite IH.
Qed.

Lemma later_operation_wins_witness :
  let milk := GroceryItem.mk (js "7") (js "Milk") (js "dairy") 2 (js "l")
                false medium None (Some 7) in
  let st := State.setItems (λ _, [milk]) State.initial in
  updateQuantity (js "7") 5 (updateQuantity (js "7") 9 st)
  = updateQuantity (js "7") 5 st.
Proof.
  intros milk st.
  destruct (later_operation_wins (js "7") 5 9 st) as [H _].
  apply H. lia.
Defined.
